(** * XBRL_Parser: the resumable, rate-limited, deduplicating fetch pipeline

    A shallow embedding of [DownloadModule.py]: the rate limiter, the
    catalog client, the retrying archive fetcher, the package extractor,
    the [filings] table and the orchestrating loops, followed by the
    properties of the pipeline.

    The interpreter state of the script is made explicit: the file system
    is a finite map from paths to files, the [filings] table is the list
    of its rows, the wall clock is a rational number of seconds, and
    everything the script prints or asks of the outside world is appended
    to a trace.  The remote services are an oracle ([World]). *)

From Stdlib Require Import QArith Lqa Ascii.
From stdpp Require Import base strings list gmap.
Close Scope Q_scope.

(** ** Python strings (ASCII) *)

Definition lower_ascii (c : ascii) : ascii :=
  let n := N_of_ascii c in
  if ((65 <=? n) && (n <=? 90))%N then ascii_of_N (n + 32) else c.

Definition upper_ascii (c : ascii) : ascii :=
  let n := N_of_ascii c in
  if ((97 <=? n) && (n <=? 122))%N then ascii_of_N (n - 32) else c.

(** [str.lower()] *)
Fixpoint lower (s : string) : string :=
  match s with
  | EmptyString => EmptyString
  | String c s' => String (lower_ascii c) (lower s')
  end.

(** [str.upper()] *)
Fixpoint upper (s : string) : string :=
  match s with
  | EmptyString => EmptyString
  | String c s' => String (upper_ascii c) (upper s')
  end.

(** [s.replace("-", "")] *)
Fixpoint remove_hyphens (s : string) : string :=
  match s with
  | EmptyString => EmptyString
  | String c s' =>
      if Ascii.eqb c "-" then remove_hyphens s' else String c (remove_hyphens s')
  end.

(** [s.endswith(suffix)] *)
Fixpoint endswith (s suffix : string) : bool :=
  if String.eqb s suffix then true
  else match s with
       | EmptyString => false
       | String _ s' => endswith s' suffix
       end.

(** [pathlib]'s [parent / child]; the separator is written [/]. *)
Definition path_join (parent child : string) : string :=
  parent +:+ "/" +:+ child.

Infix "</>" := path_join (at level 40, left associativity).

(** [s.split('/')] *)
Fixpoint split_slash (s : string) : list string :=
  match s with
  | EmptyString => [EmptyString]
  | String c s' =>
      if Ascii.eqb c "/" then EmptyString :: split_slash s'
      else match split_slash s' with
           | part :: parts => String c part :: parts
           | [] => [String c EmptyString]
           end
  end.

(** ['/'.join(parts)] *)
Fixpoint join_slash (parts : list string) : string :=
  match parts with
  | [] => EmptyString
  | part :: parts' =>
      match parts' with
      | [] => part
      | _ => part +:+ "/" +:+ join_slash parts'
      end
  end.

(** The name, below the target directory, of the file that
    [ZipFile.extract] writes for a member: the member's name without its
    empty parts and without the parts [.] and [..]
    ([ZipFile._extract_member]). *)
Definition arcname (file : string) : string :=
  join_slash (filter (λ x, x ∉ [""; "."; ".."]) (split_slash file)).

(** [form_dir / file] for the name of a member: [pathlib] drops the empty
    parts and the parts [.] of [file] and keeps [..], and a [file] that
    starts with [/] replaces the directory (its root is written [/]).
    The disk of the model holds paths as they are written, so a path with
    [..] names no file of it. *)
Definition member_path (form_dir file : string) : string :=
  let parts := filter (λ x, x ∉ [""; "."]) (split_slash file) in
  match file with
  | String c _ =>
      if Ascii.eqb c "/" then "/" +:+ join_slash parts
      else match parts with
           | [] => form_dir
           | _ => form_dir </> join_slash parts
           end
  | EmptyString => form_dir
  end.

(** ** Data model *)

(** A row of [company_tickers.csv]. *)
Record Entity := { company_ticker : string; cik_str : string }.

(** A row of the catalog's [filings.recent] table. *)
Record Filing := { form : string; accessionNumber : string; reportDate : string }.

(** A row of the [filings] table. *)
Record LedgerRecord := {
  id : nat;
  ticker : string;
  cik : string;
  form_type : string;
  report_date : string;
  accession_number : string;
  file_path : string
}.

#[global] Instance Entity_eq_dec : EqDecision Entity.
Proof. solve_decision. Defined.
#[global] Instance Filing_eq_dec : EqDecision Filing.
Proof. solve_decision. Defined.
#[global] Instance LedgerRecord_eq_dec : EqDecision LedgerRecord.
Proof. solve_decision. Defined.

(** What [zipfile.ZipFile] makes of downloaded bytes: not a zip archive, or
    the members in archive order, each a name and its data. *)
Inductive package :=
| Corrupt
| Archive (members : list (string * string)).

(** A file on disk: a downloaded package or an extracted document. *)
Inductive file :=
| FPackage (p : package)
| FData (d : string).

Inductive exn :=
| RequestException
| OtherException (name : string)
| BadZipFile
| ValueError
| KeyError
| UnboundLocalError
| FileNotFoundError
| AttributeError
| IndexError.

(** The outcome of [requests.get(xbrl_zip_url, ...)]. *)
Inductive http_result :=
| Response (status_code : Z) (content : package)
| GetRaises (e : exn).

(** The outcome of the catalog lookup, lines 42 to 44 of the script:
    [CatalogRaises e] when the request, the decoding of the answer, the
    construction of the frame or the selection on its [form] column
    raises [e] (what [pandas] accepts is not written in the script);
    [Recent all_forms] when the listing has the rows [all_forms] and the
    selection goes through. *)
Inductive catalog_result :=
| CatalogRaises (e : exn)
| Recent (all_forms : list Filing).

(** The outside world.  The [n]-th request of a run is answered by
    [catalog url n] or [archive url n] and takes [latency n] seconds;
    [to_datetime_strftime] is [pd.to_datetime(x).strftime('%Y-%m-%d')],
    [None] when it raises. *)
Record World := {
  catalog : string → nat → catalog_result;
  archive : string → nat → http_result;
  latency : nat → Q;
  to_datetime_strftime : string → option string
}.

(** ** RateLimiter *)

(** The attributes of a [RateLimiter]; [semaphore] is the value of the
    counting semaphore, [timer] is unset until the first [__enter__].  The
    [Lock] only guards the assignment of [timer]. *)
Record RateLimiter := {
  max_calls : nat;
  period : Q;
  semaphore : nat;
  timer : option Q
}.

(** [RateLimiter.__init__] *)
Definition RateLimiter_init (max_calls : nat) (period : Q) : RateLimiter :=
  {| max_calls := max_calls; period := period;
     semaphore := max_calls; timer := None |}.

(** Permits handed out and not yet returned. *)
Definition outstanding (l : RateLimiter) : Z :=
  Z.of_nat (max_calls l) - Z.of_nat (semaphore l).

(** ** Observable behaviour *)

Inductive message :=
| MsgAlreadyDownloaded (accession_number : string)
| MsgFailedRetrying (FORM accession_number : string)
| MsgErrorRetrying (FORM accession_number : string)
| MsgFailedAfter (FORM accession_number : string) (max_retries : nat)
| MsgDownloaded (FORM accession_number : string)
| MsgProcessing (ticker cik : string)
| MsgErrorProcessing (ticker cik : string) (e : exn).

Inductive event :=
| EvPrint (m : message)
| EvAcquire (now : Q) (held : Z)
| EvRelease (now : Q) (held : Z)
| EvCatalogGet (url : string)
| EvArchiveGet (url : string)
| EvOpenZip (path : string)
| EvExtract (member dir : string)
| EvRename (src dst : string)
| EvInsert (r : LedgerRecord)
| EvCommit.

(** ** Interpreter state *)

(** [filings] is the table as the open connection sees it, rows in [id]
    order; [durable] is what has been committed.  [trace] is newest
    first. *)
Record state := {
  fs : gmap string file;
  filings : list LedgerRecord;
  durable : list LedgerRecord;
  requests : nat;
  clock : Q;
  sec_rate_limiter : RateLimiter;
  trace : list event
}.

Definition with_fs (f : gmap string file → gmap string file) (s : state) : state :=
  {| fs := f (fs s); filings := filings s; durable := durable s;
     requests := requests s; clock := clock s;
     sec_rate_limiter := sec_rate_limiter s; trace := trace s |}.

Definition with_filings (f : list LedgerRecord → list LedgerRecord) (s : state) : state :=
  {| fs := fs s; filings := f (filings s); durable := durable s;
     requests := requests s; clock := clock s;
     sec_rate_limiter := sec_rate_limiter s; trace := trace s |}.

Definition with_durable (d : list LedgerRecord) (s : state) : state :=
  {| fs := fs s; filings := filings s; durable := d;
     requests := requests s; clock := clock s;
     sec_rate_limiter := sec_rate_limiter s; trace := trace s |}.

Definition with_requests (n : nat) (s : state) : state :=
  {| fs := fs s; filings := filings s; durable := durable s;
     requests := n; clock := clock s;
     sec_rate_limiter := sec_rate_limiter s; trace := trace s |}.

Definition with_clock (t : Q) (s : state) : state :=
  {| fs := fs s; filings := filings s; durable := durable s;
     requests := requests s; clock := t;
     sec_rate_limiter := sec_rate_limiter s; trace := trace s |}.

Definition with_limiter (l : RateLimiter) (s : state) : state :=
  {| fs := fs s; filings := filings s; durable := durable s;
     requests := requests s; clock := clock s;
     sec_rate_limiter := l; trace := trace s |}.

Definition with_event (e : event) (s : state) : state :=
  {| fs := fs s; filings := filings s; durable := durable s;
     requests := requests s; clock := clock s;
     sec_rate_limiter := sec_rate_limiter s; trace := e :: trace s |}.

(** ** Statements: state, exceptions, and a call that never returns *)

Inductive result (A : Type) :=
| Ok (a : A) (s : state)
| Raise (e : exn) (s : state)
| Hang.
Arguments Ok {A} a s.
Arguments Raise {A} e s.
Arguments Hang {A}.

Definition M (A : Type) : Type := state → result A.

Definition ret {A} (a : A) : M A := λ s, Ok a s.

Definition raise {A} (e : exn) : M A := λ s, Raise e s.

Definition bind {A B} (m : M A) (k : A → M B) : M B :=
  λ s, match m s with
       | Ok a s' => k a s'
       | Raise e s' => Raise e s'
       | Hang => Hang
       end.

Notation "x <- m ;; k" := (bind m (λ x, k))
  (at level 100, m at next level, right associativity).
Notation "m ;; k" := (bind m (λ _, k))
  (at level 100, right associativity).

(** [try: body  except Exception as e: handler(e)] *)
Definition try_except {A} (body : M A) (handler : exn → M A) : M A :=
  λ s, match body s with
       | Raise e s' => handler e s'
       | r => r
       end.

Definition modify (f : state → state) : M unit := λ s, Ok tt (f s).

Definition emit (e : event) : M unit := modify (with_event e).

Definition print (m : message) : M unit := emit (EvPrint m).

(** [time.time()] *)
Definition time_time : M Q := λ s, Ok (clock s) s.

(** [time.sleep(d)]: the clock advances by [d]. *)
Definition time_sleep (d : Q) : M unit := modify (λ s, with_clock (clock s + d)%Q s).

(** The state a result ends in, if it ends. *)
Definition state_of {A} (r : result A) : option state :=
  match r with
  | Ok _ s | Raise _ s => Some s
  | Hang => None
  end.

(** ** RateLimiter as a context manager *)

(** [RateLimiter.__enter__]: [semaphore.acquire()] never returns when no
    permit is left (the script has one thread); then the acquisition time
    is stored. *)
Definition RateLimiter_enter : M unit :=
  λ s, let l := sec_rate_limiter s in
       match semaphore l with
       | 0 => Hang
       | S n =>
           let l' := {| max_calls := max_calls l; period := period l;
                        semaphore := n; timer := Some (clock s) |} in
           Ok tt (with_event (EvAcquire (clock s) (outstanding l'))
                    (with_limiter l' s))
       end.

(** [semaphore.release()] *)
Definition semaphore_release : M unit :=
  λ s, let l := sec_rate_limiter s in
       let l' := {| max_calls := max_calls l; period := period l;
                    semaphore := S (semaphore l); timer := timer l |} in
       Ok tt (with_event (EvRelease (clock s) (outstanding l'))
                (with_limiter l' s)).

(** [RateLimiter.__exit__] *)
Definition RateLimiter_exit : M unit :=
  λ s, match timer (sec_rate_limiter s) with
       | None => Raise AttributeError s
       | Some t0 =>
           (now <- time_time ;;
            let elapsed := (now - t0)%Q in
            (if Qlt_le_dec elapsed (period (sec_rate_limiter s))
             then time_sleep (period (sec_rate_limiter s) - elapsed)%Q
             else ret tt) ;;
            semaphore_release) s
       end.

(** [with sec_rate_limiter: body].  [__exit__] returns [None], so an
    exception of the body is raised again after it. *)
Definition with_sec_rate_limiter {A} (body : M A) : M A :=
  RateLimiter_enter ;;
  λ s, match body s with
       | Ok a s' => (RateLimiter_exit ;; ret a) s'
       | Raise e s' => (RateLimiter_exit ;; raise e) s'
       | Hang => Hang
       end.

(** ** FilingCatalogClient *)

Definition recognized_forms : list string := ["10-k"; "10-q"; "20-f"; "40-f"].

Definition filings_url (cik : string) : string :=
  "https://data.sec.gov/submissions/CIK" +:+ cik +:+ ".json".

Section Pipeline.

Context (w : World).

(** [requests.get(filings_url, ...)], the parse of its body and what may
    raise in the selection of line 44: all of it is inside the [with]
    block and comes after the request. *)
Definition catalog_get (url : string) : M (list Filing) :=
  λ s, let n := requests s in
       let s' := with_event (EvCatalogGet url)
                   (with_clock (clock s + latency w n)%Q
                      (with_requests (S n) s)) in
       match catalog w url n with
       | CatalogRaises e => Raise e s'
       | Recent all_forms => Ok all_forms s'
       end.

Definition get_filings_list (cik : string) : M (list Filing) :=
  with_sec_rate_limiter
    (all_forms <- catalog_get (filings_url cik) ;;
     ret (filter (λ f, lower (form f) ∈ recognized_forms) all_forms)).

(** ** Ledger *)

(** [SELECT COUNT( * ) FROM filings WHERE accession_number = ?] *)
Definition select_count (acc : string) : M nat :=
  λ s, Ok (length (filter (λ r, accession_number r = acc) (filings s))) s.

(** The next [AUTOINCREMENT] key: one more than the largest in the table. *)
Definition next_id (rows : list LedgerRecord) : nat :=
  S (foldr Nat.max 0 (id <$> rows)).

(** [INSERT INTO filings (...) VALUES (...)]: no constraint is checked. *)
Definition insert_row (tk ck ft rd acc fp : string)
    (rows : list LedgerRecord) : list LedgerRecord :=
  rows ++ [{| id := next_id rows; ticker := tk; cik := ck; form_type := ft;
              report_date := rd; accession_number := acc; file_path := fp |}].

Definition insert_filing (tk ck ft rd acc fp : string) : M unit :=
  λ s, let rows := insert_row tk ck ft rd acc fp (filings s) in
       Ok tt (with_event
                (EvInsert {| id := next_id (filings s); ticker := tk; cik := ck;
                             form_type := ft; report_date := rd;
                             accession_number := acc; file_path := fp |})
                (with_filings (λ _, rows) s)).

(** [SELECT ticker, cik FROM filings ORDER BY id DESC LIMIT 1] *)
Definition order_by_id_desc_limit_1 (rows : list LedgerRecord) : option LedgerRecord :=
  foldl (λ best r, match best with
                   | None => Some r
                   | Some b => if id b <? id r then Some r else Some b
                   end) None rows.

Definition select_last_downloaded : M (option LedgerRecord) :=
  λ s, Ok (order_by_id_desc_limit_1 (filings s)) s.

(** [sqlite3.connect] with [CREATE TABLE IF NOT EXISTS]: the connection
    sees the committed rows. *)
Definition create_database : M unit :=
  modify (λ s, with_filings (λ _, durable s) s).

(** [conn.commit()] *)
Definition commit : M unit :=
  emit EvCommit ;; modify (λ s, with_durable (filings s) s).

(** [conn.close()]: rows inserted since the last commit are rolled back. *)
Definition close : M unit :=
  modify (λ s, with_filings (λ _, durable s) s).

(** ** File system *)

Definition write_file (path : string) (f : file) : M unit :=
  modify (with_fs (insert path f)).

Definition path_exists (path : string) : M bool :=
  λ s, Ok (bool_decide (is_Some (fs s !! path))) s.

(** [os.remove(path)] *)
Definition os_remove (path : string) : M unit :=
  λ s, match fs s !! path with
       | Some _ => Ok tt (with_fs (delete path) s)
       | None => Raise FileNotFoundError s
       end.

(** [os.rename(src, dst)] with [dst] absent. *)
Definition os_rename (src dst : string) : M unit :=
  λ s, match fs s !! src with
       | Some f => Ok tt (with_event (EvRename src dst)
                            (with_fs (λ m, <[dst := f]> (delete src m)) s))
       | None => Raise FileNotFoundError s
       end.

(** [zipfile.ZipFile(zip_filename, 'r')] *)
Definition ZipFile (zip_filename : string) : M (list (string * string)) :=
  emit (EvOpenZip zip_filename) ;;
  λ s, match fs s !! zip_filename with
       | Some (FPackage (Archive members)) => Ok members s
       | Some _ => Raise BadZipFile s
       | None => Raise FileNotFoundError s
       end.

(** [zip_ref.namelist()] *)
Definition namelist (members : list (string * string)) : list string :=
  fst <$> members.

(** [zip_ref.getinfo(name)]: of several members of one name, the last. *)
Definition getinfo (members : list (string * string)) (name : string) : option string :=
  snd <$> last (filter (λ m, fst m = name) members).

(** [zip_ref.extract(file, form_dir)]: the member is written below
    [form_dir] at its sanitised name, which is not always [file].  The
    script extracts only members whose name ends in [.xml]: the last part
    of such a name is kept, so the member is a file and its sanitised
    name is not empty. *)
Definition zip_extract (members : list (string * string))
    (file form_dir : string) : M unit :=
  match getinfo members file with
  | None => raise KeyError
  | Some data =>
      emit (EvExtract file form_dir) ;;
      write_file (form_dir </> arcname file) (FData data)
  end.

(** ** ArchiveFetcher *)

Definition base_url : string := "https://www.sec.gov/Archives/edgar/data/".

(** [f'{base_url}{cik}/{accession_number.replace("-", "")}/{accession_number}-xbrl.zip'] *)
Definition xbrl_zip_url (ck acc : string) : string :=
  base_url +:+ ck +:+ "/" +:+ remove_hyphens acc +:+ "/" +:+ acc +:+ "-xbrl.zip".

(** [requests.get(xbrl_zip_url, headers=headers)] *)
Definition requests_get (url : string) : M http_result :=
  λ s, let n := requests s in
       Ok (archive w url n)
          (with_event (EvArchiveGet url)
             (with_clock (clock s + latency w n)%Q (with_requests (S n) s))).

(** The budget of download attempts; the source fixes it to [1]. *)
Context (max_retries : nat).

(** [while retries < max_retries: ...], started with
    [remaining = max_retries - retries].  [response] is the content of the
    last response received for this filing.  Only [RequestException] is
    caught. *)
Fixpoint download_with_retries (url FORM acc : string)
    (remaining retries : nat) (response : option package)
    : M (nat * option package) :=
  match remaining with
  | 0 => ret (retries, response)
  | S remaining' =>
      r <- requests_get url ;;
      match r with
      | Response status_code content =>
          if (status_code =? 200)%Z then ret (retries, Some content)
          else
            (print (MsgFailedRetrying FORM acc) ;;
             time_sleep (1 # 20) ;;
             download_with_retries url FORM acc remaining' (S retries) (Some content))
      | GetRaises RequestException =>
          print (MsgErrorRetrying FORM acc) ;;
          time_sleep (1 # 20) ;;
          download_with_retries url FORM acc remaining' (S retries) response
      | GetRaises e => raise e
      end
  end.

(** ** PackageExtractor *)

(** The body of [if file.lower().endswith('.xml'):], after the assignment
    of [new_filename]: extract the member, remove a file that has the new
    name, rename [form_dir / file] to it.  [os.rename] raises
    [FileNotFoundError] when the member was extracted elsewhere. *)
Definition extract_and_rename (members : list (string * string))
    (form_dir new_filename file : string) : M unit :=
  zip_extract members file form_dir ;;
  let existing_file_path := form_dir </> new_filename in
  let new_file_path := member_path form_dir file in
  ex <- path_exists existing_file_path ;;
  (if ex : bool then os_remove existing_file_path else ret tt) ;;
  os_rename new_file_path existing_file_path.

(** [for file in zip_ref.namelist(): if file.lower().endswith('.xml'): ...]
    The loop assigns the function's local [new_filename], which is not
    reset between filings. *)
Fixpoint extract_members (members : list (string * string))
    (form_dir name : string) (files : list string)
    (new_filename : option string) : M (option string) :=
  match files with
  | [] => ret new_filename
  | file :: files' =>
      if endswith (lower file) ".xml" then
        let new_filename := name in
        extract_and_rename members form_dir new_filename file ;;
        extract_members members form_dir name files' (Some new_filename)
      else extract_members members form_dir name files' new_filename
  end.

(** [f"[{form_type.upper()}][{report_date}][{ticker}].xbrl"] *)
Definition xbrl_name (form_type report_date tk : string) : string :=
  "[" +:+ upper form_type +:+ "][" +:+ report_date +:+ "][" +:+ tk +:+ "].xbrl".

(** ** One iteration of the loop over the filings of an entity

    The result is the value of [new_filename] the next iteration starts
    with.  A [continue] is a return from the body.  Directories are not
    part of the model of the disk, so the two [mkdir] calls leave no
    mark.  [response] is read only after a [break], which follows its
    assignment, so the value an earlier filing left in it is never seen
    and every iteration starts the retry loop without one. *)
Definition process_filing (ck tk filings_path : string)
    (new_filename : option string) (filing : Filing) : M (option string) :=
  let form_type := lower (form filing) in
  let form_dir := filings_path </> form_type in
  let acc := accessionNumber filing in
  count <- select_count acc ;;
  if 0 <? count then
    print (MsgAlreadyDownloaded acc) ;; ret new_filename
  else
    loop_exit <-
       download_with_retries (xbrl_zip_url ck acc) (upper form_type) acc
         max_retries 0 None ;;
    let retries := fst loop_exit in
    let response := snd loop_exit in
    if retries =? max_retries then
      print (MsgFailedAfter (upper form_type) acc max_retries) ;; ret new_filename
    else
      match response with
      | None => raise UnboundLocalError
      | Some content =>
          let zip_filename := form_dir </> (acc +:+ "-xbrl.zip") in
          write_file zip_filename (FPackage content) ;;
          print (MsgDownloaded (upper form_type) acc) ;;
          members <- ZipFile zip_filename ;;
          match to_datetime_strftime w (reportDate filing) with
          | None => raise ValueError
          | Some report_date =>
              new_filename <-
                extract_members members form_dir
                  (xbrl_name form_type report_date tk) (namelist members)
                  new_filename ;;
              os_remove zip_filename ;;
              match new_filename with
              | None => raise UnboundLocalError
              | Some name =>
                  insert_filing tk ck form_type report_date acc (form_dir </> name) ;;
                  ret new_filename
              end
          end
      end.

Fixpoint for_each_filing (ck tk filings_path : string)
    (rows : list Filing) (new_filename : option string) : M unit :=
  match rows with
  | [] => ret tt
  | filing :: rows' =>
      new_filename <- process_filing ck tk filings_path new_filename filing ;;
      for_each_filing ck tk filings_path rows' new_filename
  end.

(** [new_filename] is unbound when the function is entered. *)
Definition download_and_unzip_filings (ck tk : string) (rows : list Filing) : M unit :=
  let filings_path := "D:/Filings" </> tk in
  for_each_filing ck tk filings_path rows None.

(** ** Orchestrator *)

(** The [try] block of the loop over the entities. *)
Definition try_block (row : Entity) : M unit :=
  let tk := company_ticker row in
  let ck := cik_str row in
  filings_list <- get_filings_list ck ;;
  download_and_unzip_filings ck tk filings_list ;;
  commit.

(** The body of [for _, row in company_data.iterrows()]. *)
Definition process_entity (row : Entity) : M unit :=
  let tk := company_ticker row in
  let ck := cik_str row in
  print (MsgProcessing tk ck) ;;
  try_except (try_block row)
    (λ e, print (MsgErrorProcessing tk ck e)).

Fixpoint for_each_entity (company_data : list Entity) : M unit :=
  match company_data with
  | [] => ret tt
  | row :: company_data' =>
      process_entity row ;; for_each_entity company_data'
  end.

(** [company_data[company_data['ticker'] == t].index[0]] *)
Definition ticker_index (company_data : list Entity) (t : string) : option nat :=
  fst <$> list_find (λ row, company_ticker row = t) company_data.

(** The rows left by [company_data.loc[ticker_index:]] when a last
    downloaded filing is found; [.index[0]] raises when no row matches. *)
Definition resume (company_data : list Entity)
    (last_downloaded_filing : option LedgerRecord) : M (list Entity) :=
  match last_downloaded_filing with
  | Some last =>
      match ticker_index company_data (ticker last) with
      | Some i => ret (drop i company_data)
      | None => raise IndexError
      end
  | None => ret company_data
  end.

Definition main (company_data : list Entity) : M unit :=
  create_database ;;
  last_downloaded_filing <- select_last_downloaded ;;
  company_data <- resume company_data last_downloaded_filing ;;
  for_each_entity company_data ;;
  close.

(** Running the script: the module body creates the limiter of 10 calls
    per second, then [main()] runs. *)
Definition run_script (company_data : list Entity) : M unit :=
  modify (with_limiter (RateLimiter_init 10 1)) ;;
  main company_data.

End Pipeline.

(** The script as it is: [max_retries = 1]. *)
Definition download_module (w : World) (company_data : list Entity) : M unit :=
  run_script w 1 company_data.

(** * Vocabulary of the properties *)

(** The accession numbers of a list of rows. *)
Definition accessions (rows : list LedgerRecord) : list string :=
  accession_number <$> rows.

Definition is_archive_get (e : event) : bool :=
  match e with EvArchiveGet _ => true | _ => false end.

Definition is_extraction (e : event) : bool :=
  match e with EvOpenZip _ | EvExtract _ _ | EvRename _ _ => true | _ => false end.

Definition is_insert (e : event) : bool :=
  match e with EvInsert _ => true | _ => false end.

(** The number of download attempts recorded in a piece of trace. *)
Fixpoint archive_gets (t : list event) : nat :=
  match t with
  | [] => 0
  | e :: t' => (if is_archive_get e then 1 else 0) + archive_gets t'
  end.

(** The entities announced by [print(f"Processing ...")], newest first. *)
Definition processing_of (t : list event) : list (string * string) :=
  omap (λ e, match e with
             | EvPrint (MsgProcessing tk ck) => Some (tk, ck)
             | _ => None
             end) t.

(** The renames recorded in a piece of trace, newest first. *)
Definition renames_of (t : list event) : list (string * string) :=
  omap (λ e, match e with EvRename src dst => Some (src, dst) | _ => None end) t.

(** The events of the work on one filing: neither the announcement of an
    entity nor a move of the limiter. *)
Definition silent (e : event) : Prop :=
  match e with
  | EvPrint (MsgProcessing _ _) | EvAcquire _ _ | EvRelease _ _ => False
  | _ => True
  end.

(** The number of outstanding permits an event of the limiter records is
    the one of [l], or one more. *)
Definition held_within (l : RateLimiter) (e : event) : Prop :=
  match e with
  | EvAcquire _ held | EvRelease _ held =>
      (outstanding l ≤ held ≤ outstanding l + 1)%Z
  | _ => True
  end.

(** The number of outstanding permits an event of the limiter records is
    between zero and [cap]. *)
Definition permits_bounded (cap : Z) (e : event) : Prop :=
  match e with
  | EvAcquire _ held | EvRelease _ held => (0 ≤ held ≤ cap)%Z
  | _ => True
  end.

(** A statement ends, normally or with an exception, in a state that
    satisfies [Q]. *)
Definition ends_in {A} (r : result A) (Q : state → Prop) : Prop :=
  match r with
  | Ok _ s' | Raise _ s' => Q s'
  | Hang => False
  end.

(** Every execution of [m] ends, and relates its two ends by [R]. *)
Definition steps (R : relation state) {A} (m : M A) : Prop :=
  ∀ s, ends_in (m s) (R s).

(** The ledger, the permits and the list of announced entities are left
    alone. *)
Record quiet (s s' : state) : Prop := {
  quiet_filings : filings s' = filings s;
  quiet_durable : durable s' = durable s;
  quiet_limiter : sec_rate_limiter s' = sec_rate_limiter s;
  quiet_trace : ∃ new, trace s' = new ++ trace s ∧ Forall silent new
}.

(** [P] survives the insertion of a row of ticker [tk] whose accession
    number is not in the table. *)
Definition insert_closed (tk : string) (P : list LedgerRecord → Prop) : Prop :=
  ∀ rows ck ft rd acc fp,
    P rows → acc ∉ accessions rows → P (insert_row tk ck ft rd acc fp rows).

(** [rows'] is [rows] after some such insertions. *)
Definition ledger_grows (tk : string) (rows rows' : list LedgerRecord) : Prop :=
  ∀ P, insert_closed tk P → P rows → P rows'.

(** What one iteration of the loop over the filings may do. *)
Record filing_frame (tk ck acc : string) (s s' : state) : Prop := {
  filing_filings :
    filings s' = filings s
    ∨ ((acc ∉ accessions (filings s))
       ∧ ∃ ft rd fp, filings s' = insert_row tk ck ft rd acc fp (filings s));
  filing_durable : durable s' = durable s;
  filing_limiter : sec_rate_limiter s' = sec_rate_limiter s;
  filing_trace : ∃ new, trace s' = new ++ trace s ∧ Forall silent new
}.

(** What the processing of the filings of one entity may do. *)
Record frame (tk : string) (s s' : state) : Prop := {
  frame_filings : ledger_grows tk (filings s) (filings s');
  frame_durable : durable s' = durable s;
  frame_limiter : sec_rate_limiter s' = sec_rate_limiter s;
  frame_trace : ∃ new, trace s' = new ++ trace s ∧ Forall silent new
}.

(** The entities of a list as [print(f"Processing ...")] names them. *)
Definition announced (company_data : list Entity) : list (string * string) :=
  (λ row, (company_ticker row, cik_str row)) <$> company_data.

(** What the processing of one entity may do: rows of its ticker are
    inserted, and the committed table either stays or catches up. *)
Record entity_frame (row : Entity) (s s' : state) : Prop := {
  entity_filings : ledger_grows (company_ticker row) (filings s) (filings s');
  entity_durable : durable s' = durable s ∨ durable s' = filings s';
  entity_limiter_semaphore :
    semaphore (sec_rate_limiter s') = semaphore (sec_rate_limiter s);
  entity_limiter_max_calls :
    max_calls (sec_rate_limiter s') = max_calls (sec_rate_limiter s);
  entity_trace : ∃ new,
    trace s' = new ++ EvPrint (MsgProcessing (company_ticker row) (cik_str row)) :: trace s
    ∧ processing_of new = []
    ∧ Forall (held_within (sec_rate_limiter s)) new
}.

(** What a loop over the entities [todo] may do. *)
Record run_frame (todo : list Entity) (s s' : state) : Prop := {
  run_ledger : ∀ P : list LedgerRecord → Prop,
    (∀ row, row ∈ todo → insert_closed (company_ticker row) P) →
    P (filings s) → P (durable s) → P (filings s') ∧ P (durable s');
  run_semaphore :
    semaphore (sec_rate_limiter s') = semaphore (sec_rate_limiter s);
  run_max_calls :
    max_calls (sec_rate_limiter s') = max_calls (sec_rate_limiter s);
  run_trace : ∃ new,
    trace s' = new ++ trace s
    ∧ processing_of new = rev (announced todo)
    ∧ Forall (held_within (sec_rate_limiter s)) new
}.

(** An endpoint that never delivers: every attempt gets a status other
    than 200 or raises [RequestException]. *)
Definition permanently_failing (w : World) (url : string) : Prop :=
  ∀ n, match archive w url n with
       | Response status_code _ => status_code ≠ 200%Z
       | GetRaises e => e = RequestException
       end.

(** The events of the retry loop for [url]: download attempts at [url]
    and diagnostics. *)
Definition retry_event (url : string) (e : event) : Prop :=
  match e with
  | EvArchiveGet u => u = url
  | EvPrint _ => True
  | _ => False
  end.

(** The states the ledger can be in: no database at first, then whatever
    runs of the script, and within a run the connection, the iterations
    over filings, the commits and the close, make of it; statements that
    do not touch the table do not matter. *)
Inductive reachable : state → Prop :=
| reachable_fresh s :
    filings s = [] → durable s = [] → reachable s
| reachable_run w max_retries company_data s s' :
    reachable s →
    state_of (run_script w max_retries company_data s) = Some s' →
    reachable s'
| reachable_connect s s' :
    reachable s → state_of (create_database s) = Some s' → reachable s'
| reachable_filing w max_retries ck tk path nf filing s s' :
    reachable s →
    state_of (process_filing w max_retries ck tk path nf filing s) = Some s' →
    reachable s'
| reachable_commit s s' :
    reachable s → state_of (commit s) = Some s' → reachable s'
| reachable_close s s' :
    reachable s → state_of (close s) = Some s' → reachable s'
| reachable_other s s' :
    reachable s → filings s' = filings s → durable s' = durable s →
    reachable s'.

(** The members the extractor takes: those whose lower-cased name ends in
    [.xml]. *)
Definition xml_files (files : list string) : list string :=
  filter (λ f, endswith (lower f) ".xml" = true) files.

(** A character of a plain file name: a digit, a letter, [.], [_] or
    [-]. *)
Definition plain_char (c : ascii) : bool :=
  let n := N_of_ascii c in
  (((48 <=? n) && (n <=? 57)) || ((65 <=? n) && (n <=? 90))
   || ((97 <=? n) && (n <=? 122))
   || (n =? 46) || (n =? 95) || (n =? 45))%N.

(** A name made of such characters: it has one part, and the extraction
    and the path join of the script use it as it is. *)
Fixpoint plain_name (s : string) : bool :=
  match s with
  | EmptyString => true
  | String c s' => plain_char c && plain_name s'
  end.

(** [s] ends with [suffix]. *)
Definition ends (s suffix : string) : Prop := ∃ p, s = p +:+ suffix.

(** The disk after member [f] with data [d] has been extracted into [dir]
    and renamed to [name]. *)
Definition extract_one (dir name f d : string) (m : gmap string file) : gmap string file :=
  let m1 := <[dir </> f := FData d]> m in
  let m2 := if bool_decide (is_Some (m1 !! (dir </> name)))
            then delete (dir </> name) m1 else m1 in
  <[dir </> name := FData d]> (delete (dir </> f) m2).

(** What is at path [p] after the members [files] of a package were gone
    through, on a disk that was [m]: the data of the last member taken
    under the new name, nothing where the members taken were extracted,
    and what was there before everywhere else. *)
Definition extracted_lookup (members : list (string * string))
    (dir name : string) (files : list string) (m : gmap string file)
    (p : string) : option file :=
  match last (xml_files files) with
  | None => m !! p
  | Some f =>
      if decide (p = dir </> name) then FData <$> getinfo members f
      else if decide (p ∈ path_join dir <$> xml_files files) then None
      else m !! p
  end.

(** The part of the trace of [s'] that was added since [s]. *)
Definition trace_since (s s' : state) : list event :=
  take (length (trace s') - length (trace s)) (trace s').

(** A statement that only looks: disk and ledger are as before, and no
    download, extraction or insertion is in the trace it adds. *)
Record idle (s s' : state) : Prop := {
  idle_fs : fs s' = fs s;
  idle_filings : filings s' = filings s;
  idle_durable : durable s' = durable s;
  idle_semaphore :
    semaphore (sec_rate_limiter s') = semaphore (sec_rate_limiter s);
  idle_trace : ∃ new,
    trace s' = new ++ trace s
    ∧ archive_gets new = 0
    ∧ Forall (λ e, is_extraction e = false ∧ is_insert e = false) new
}.

(** The row the resume query finds, if any, has one of [tickers]. *)
Definition last_ticker_known (tickers : list string)
    (rows : list LedgerRecord) : Prop :=
  ∀ last, order_by_id_desc_limit_1 rows = Some last → ticker last ∈ tickers.

(** Every recognized filing the catalog can list for a row of
    [company_data] has its accession number in [rows]. *)
Definition all_ledgered (w : World) (company_data : list Entity)
    (rows : list LedgerRecord) : Prop :=
  ∀ row n all_forms f,
    row ∈ company_data →
    catalog w (filings_url (cik_str row)) n = Recent all_forms →
    f ∈ all_forms →
    lower (form f) ∈ recognized_forms →
    accessionNumber f ∈ accessions rows.

(** * Concrete data for examples *)

Definition xyz : Entity := {| company_ticker := "XYZ"; cik_str := "0000320193" |}.
Definition abc : Entity := {| company_ticker := "ABC"; cik_str := "0000000001" |}.

(** Another entity that carries the ticker of [xyz]. *)
Definition xyz_namesake : Entity :=
  {| company_ticker := "XYZ"; cik_str := "0000000009" |}.

Definition filing_10k : Filing :=
  {| form := "10-K"; accessionNumber := "0000320193-23-000106";
     reportDate := "2023-09-30" |}.
Definition filing_10q : Filing :=
  {| form := "10-Q"; accessionNumber := "0000320193-23-000077";
     reportDate := "2023-07-01" |}.

(** A world in which XYZ has the two filings above (and a form that is
    not recognized), every other catalog lookup fails, and the archive
    answers the two package requests with [r10k] and [r10q]. *)
Definition world_of (r10k r10q : http_result) : World :=
  {| catalog := λ url _,
       if String.eqb url (filings_url "0000320193")
       then Recent [filing_10k; filing_10q;
                    {| form := "8-K"; accessionNumber := "0000320193-23-000001";
                       reportDate := "2023-01-05" |}]
       else CatalogRaises KeyError;
     archive := λ url _,
       if String.eqb url (xbrl_zip_url "0000320193" "0000320193-23-000106") then r10k
       else if String.eqb url (xbrl_zip_url "0000320193" "0000320193-23-000077") then r10q
       else Response 404 Corrupt;
     latency := λ _, (1 # 4)%Q;
     to_datetime_strftime := λ x, Some x |}.

Definition package_two_documents : package :=
  Archive [("a.xml", "<A/>"); ("readme.txt", "notes"); ("B.XML", "<B/>")].
Definition package_one_document : package :=
  Archive [("q.xml", "<Q/>")].
Definition package_no_document : package :=
  Archive [("readme.txt", "notes")].

(** A package whose first document is listed under a name that the
    extraction sanitises. *)
Definition package_misplaced_document : package :=
  Archive [("../a.xml", "<A/>"); ("b.xml", "<B/>")].

Definition world_ok : World :=
  world_of (Response 200 package_two_documents) (Response 200 package_one_document).
Definition world_misplaced : World :=
  world_of (Response 200 package_misplaced_document)
    (Response 200 package_one_document).
Definition world_404 : World :=
  world_of (Response 404 Corrupt) (GetRaises RequestException).

(** No database file yet, nothing on disk, the limiter as the module
    creates it. *)
Definition fresh : state :=
  {| fs := ∅; filings := []; durable := []; requests := 0; clock := 0%Q;
     sec_rate_limiter := RateLimiter_init 10 1; trace := [] |}.

Definition row_10k : LedgerRecord :=
  {| id := 1; ticker := "XYZ"; cik := "0000320193"; form_type := "10-k";
     report_date := "2023-09-30"; accession_number := "0000320193-23-000106";
     file_path := "D:/Filings/XYZ/10-k/[10-K][2023-09-30][XYZ].xbrl" |}.

(** A connection that sees [row_10k] committed. *)
Definition ledgered_10k : state :=
  with_filings (λ _, [row_10k]) (with_durable [row_10k] fresh).

Definition world_corrupt_first : World :=
  world_of (Response 200 Corrupt) (Response 200 package_one_document).
Definition world_corrupt_second : World :=
  world_of (Response 200 package_two_documents) (Response 200 Corrupt).
Definition world_no_document_second : World :=
  world_of (Response 200 package_two_documents) (Response 200 package_no_document).

(** The state after one answered request for the package of
    [filing_10k], made in the state [fresh]. *)
Definition after_get_10k : state :=
  with_event (EvArchiveGet (xbrl_zip_url "0000320193" "0000320193-23-000106"))
    (with_clock (0 + (1 # 4))%Q (with_requests 1 fresh)).

(** The state a first run over XYZ ends in when both packages are fine. *)
Definition after_first_run : state :=
  default fresh (state_of (run_script world_ok 1 [xyz] fresh)).

(** The state in which the [try] block of XYZ ends when the second
    package is corrupt. *)
Definition raised_in_xyz : state :=
  default fresh
    (state_of (try_block world_corrupt_second 1 xyz
                 (with_event (EvPrint (MsgProcessing "XYZ" "0000320193")) fresh))).

(** * Vocabulary of the further properties *)

(** An attempt that the retry loop answers with another attempt. *)
Definition attempt_fails (r : http_result) : Prop :=
  match r with
  | Response status_code _ => status_code ≠ 200%Z
  | GetRaises e => e = RequestException
  end.

(** The [id]s grow along the table. *)
Definition ids_increasing (rows : list LedgerRecord) : Prop :=
  ∀ i j ri rj, i < j → rows !! i = Some ri → rows !! j = Some rj → id ri < id rj.

(** A world whose archive answers the first request with 503 and every
    later one with the package of two documents. *)
Definition world_flaky : World :=
  {| catalog := catalog world_ok;
     archive := λ _ n, match n with
                       | 0 => Response 503 Corrupt
                       | _ => Response 200 package_two_documents
                       end;
     latency := λ _, (1 # 4)%Q;
     to_datetime_strftime := λ x, Some x |}.

(** [c in s] *)
Fixpoint has_char (c : ascii) (s : string) : bool :=
  match s with
  | EmptyString => false
  | String x s' => if Ascii.eqb x c then true else has_char c s'
  end.

Definition world_no_document_first : World :=
  world_of (Response 200 package_no_document) (Response 200 package_one_document).

(** What holds of the state a statement ends in, if it ends. *)
Definition after {A} (r : result A) (Q : state → Prop) : Prop :=
  match r with
  | Ok _ s' | Raise _ s' => Q s'
  | Hang => True
  end.

(** Whenever [m] ends, its two ends are related by [R]. *)
Definition keeps (R : relation state) {A} (m : M A) : Prop :=
  ∀ s, after (m s) (R s).

(** [p] is a path below the directory [dir]. *)
Definition under (dir p : string) : Prop := ∃ rest, p = dir </> rest.

(** One iteration's mark on the ledger: none, or one row for the filing,
    with a path in the form directory of the filing. *)
Definition filing_row (w : World) (tk ck path : string) (filing : Filing)
    (s s' : state) : Prop :=
  (filings s' = filings s
   ∨ ∃ rd name,
       to_datetime_strftime w (reportDate filing) = Some rd
       ∧ filings s'
         = insert_row tk ck (lower (form filing)) rd (accessionNumber filing)
             (path </> lower (form filing) </> name) (filings s))
  ∧ durable s' = durable s.

(** A row as a run over [company_data] writes it: ticker and CIK of one
    of the entities, a recognized form type, and a file path in the form
    directory of the ticker. *)
Definition row_of_run (company_data : list Entity) (r : LedgerRecord) : Prop :=
  (∃ row, row ∈ company_data
          ∧ ticker r = company_ticker row ∧ cik r = cik_str row)
  ∧ form_type r ∈ recognized_forms
  ∧ under ("D:/Filings" </> ticker r </> form_type r) (file_path r).

(** [rows] is [base] followed by rows of a run over [company_data]. *)
Definition extended_by_run (company_data : list Entity)
    (base rows : list LedgerRecord) : Prop :=
  ∃ added, rows = base ++ added ∧ Forall (row_of_run company_data) added.

(** The clock has not gone back, and the limiter is as it was. *)
Definition later (s s' : state) : Prop :=
  (clock s <= clock s')%Q ∧ sec_rate_limiter s' = sec_rate_limiter s.

(** * Properties *)

(** ** Sequencing *)

Lemma ends_in_mono {A} (r : result A) (Q Q' : state → Prop) :
  ends_in r Q → (∀ s, Q s → Q' s) → ends_in r Q'.
Proof. destruct r; simpl; auto. Qed.

Lemma ends_in_bind {A B} (m : M A) (k : A → M B) s (Q1 Q : state → Prop) :
  ends_in (m s) Q1 →
  (∀ s1, Q1 s1 → Q s1) →
  (∀ a s1, m s = Ok a s1 → Q1 s1 → ends_in (k a s1) Q) →
  ends_in (bind m k s) Q.
Proof.
  unfold bind. destruct (m s) as [a s1|e s1|]; simpl; auto.
Qed.

#[global] Instance quiet_preorder : PreOrder quiet.
Proof.
  split.
  - intros s. split; auto. by exists [].
  - intros s1 s2 s3 [F1 D1 L1 (n1 & T1 & P1)] [F2 D2 L2 (n2 & T2 & P2)].
    split; try congruence.
    exists (n2 ++ n1). split.
    + rewrite T2, T1. by rewrite app_assoc.
    + by apply Forall_app.
Qed.

Lemma ledger_grows_refl tk rows : ledger_grows tk rows rows.
Proof. by intros P _ H. Qed.

Lemma ledger_grows_trans tk r1 r2 r3 :
  ledger_grows tk r1 r2 → ledger_grows tk r2 r3 → ledger_grows tk r1 r3.
Proof. intros H1 H2 P HP H. apply H2, H1; auto. Qed.

#[global] Instance frame_preorder tk : PreOrder (frame tk).
Proof.
  split.
  - intros s. split; auto using ledger_grows_refl. by exists [].
  - intros s1 s2 s3 [F1 D1 L1 (n1 & T1 & P1)] [F2 D2 L2 (n2 & T2 & P2)].
    split; try congruence.
    + eauto using ledger_grows_trans.
    + exists (n2 ++ n1). split.
      * rewrite T2, T1. by rewrite app_assoc.
      * by apply Forall_app.
Qed.

Lemma quiet_frame tk s s' : quiet s s' → frame tk s s'.
Proof.
  intros [F D L T]. split; auto. rewrite F. apply ledger_grows_refl.
Qed.

Lemma steps_ret (R : relation state) `{!Reflexive R} {A} (a : A) : steps R (ret a).
Proof. intros s. simpl. reflexivity. Qed.

Lemma steps_raise (R : relation state) `{!Reflexive R} {A} e : steps R (@raise A e).
Proof. intros s. simpl. reflexivity. Qed.

Lemma steps_bind (R : relation state) `{!PreOrder R} {A B}
    (m : M A) (k : A → M B) :
  steps R m → (∀ a, steps R (k a)) → steps R (bind m k).
Proof.
  intros Hm Hk s. eapply ends_in_bind; [apply Hm | auto |].
  intros a s1 _ H1. eapply ends_in_mono; [apply Hk|].
  intros s2 H2. by etrans.
Qed.

Lemma quiet_event e s : silent e → quiet s (with_event e s).
Proof. intros He. split; auto. exists [e]. split; [done|]. by constructor. Qed.

Lemma silent_processing new : Forall silent new → processing_of new = [].
Proof.
  induction 1 as [|e new He _ IH]; [done|].
  unfold processing_of in *. cbn [omap list_omap]. rewrite IH.
  by destruct e as [[]| | | | | | | | |].
Qed.

Lemma silent_held_within l new :
  Forall silent new → Forall (held_within l) new.
Proof.
  intros H. eapply Forall_impl; [exact H|]. intros e He. by destruct e.
Qed.

Lemma held_within_same l l' e :
  semaphore l' = semaphore l → max_calls l' = max_calls l →
  held_within l' e → held_within l e.
Proof.
  intros Hs Hm. unfold held_within, outstanding. by rewrite Hs, Hm.
Qed.

Lemma quiet_fs f s : quiet s (with_fs f s).
Proof. split; auto. by exists []. Qed.

Lemma quiet_clock t s : quiet s (with_clock t s).
Proof. split; auto. by exists []. Qed.

Lemma quiet_requests n s : quiet s (with_requests n s).
Proof. split; auto. by exists []. Qed.

Lemma steps_print m :
  (∀ tk ck, m ≠ MsgProcessing tk ck) → steps quiet (print m).
Proof.
  intros Hm s. simpl. apply quiet_event.
  destruct m as [| | | | |tk ck|]; try done. by destruct (Hm tk ck).
Qed.

Lemma steps_time_sleep d : steps quiet (time_sleep d).
Proof. intros s. apply quiet_clock. Qed.

Lemma steps_requests_get w url : steps quiet (requests_get w url).
Proof.
  intros s. simpl. etrans; [apply quiet_requests|].
  etrans; [apply quiet_clock|]. by apply quiet_event.
Qed.

Lemma steps_write_file path f : steps quiet (write_file path f).
Proof. intros s. apply quiet_fs. Qed.

Lemma steps_os_remove path : steps quiet (os_remove path).
Proof.
  intros s. unfold os_remove. destruct (fs s !! path); simpl;
    [apply quiet_fs | reflexivity].
Qed.

Lemma steps_os_rename src dst : steps quiet (os_rename src dst).
Proof.
  intros s. unfold os_rename. destruct (fs s !! src); simpl; [|reflexivity].
  etrans; [apply quiet_fs|]. by apply quiet_event.
Qed.

Lemma steps_path_exists path : steps quiet (path_exists path).
Proof. intros s. simpl. reflexivity. Qed.

Lemma steps_ZipFile path : steps quiet (ZipFile path).
Proof.
  apply steps_bind; [apply _| |].
  - intros s. by apply quiet_event.
  - intros _ s. destruct (fs s !! path) as [[[|members]|]|]; simpl; reflexivity.
Qed.

Lemma steps_zip_extract members file form_dir :
  steps quiet (zip_extract members file form_dir).
Proof.
  unfold zip_extract. destruct (getinfo members file) as [data|].
  - apply steps_bind; [apply _| |].
    + intros s. by apply quiet_event.
    + intros _. apply steps_write_file.
  - apply steps_raise, _.
Qed.

Lemma steps_extract_and_rename members form_dir name f :
  steps quiet (extract_and_rename members form_dir name f).
Proof.
  apply steps_bind; [apply _ | apply steps_zip_extract | intros _].
  apply steps_bind; [apply _ | apply steps_path_exists | intros ex].
  apply steps_bind; [apply _ | | intros _; apply steps_os_rename].
  destruct ex; [apply steps_os_remove | apply steps_ret, _].
Qed.

Lemma steps_extract_members members form_dir name files nf :
  steps quiet (extract_members members form_dir name files nf).
Proof.
  revert nf. induction files as [|f files IH]; intros nf; simpl.
  - apply steps_ret, _.
  - destruct (endswith (lower f) ".xml"); [|apply IH].
    apply steps_bind; [apply _ | apply steps_extract_and_rename | intros _].
    apply IH.
Qed.

Lemma steps_download_with_retries w url FORM acc remaining retries response :
  steps quiet (download_with_retries w url FORM acc remaining retries response).
Proof.
  revert retries response.
  induction remaining as [|remaining IH]; intros retries response; simpl.
  - apply steps_ret, _.
  - apply steps_bind; [apply _ | apply steps_requests_get | intros r].
    destruct r as [status_code content|e].
    + destruct (status_code =? 200)%Z; [apply steps_ret, _|].
      apply steps_bind; [apply _ | by apply steps_print | intros _].
      apply steps_bind; [apply _ | apply steps_time_sleep | intros _]. apply IH.
    + destruct e; try (apply steps_raise, _).
      apply steps_bind; [apply _ | by apply steps_print | intros _].
      apply steps_bind; [apply _ | apply steps_time_sleep | intros _]. apply IH.
Qed.

(** ** The ledger *)

Lemma count_pos_iff acc rows :
  (0 <? length (filter (λ r, accession_number r = acc) rows)) = true
  ↔ acc ∈ accessions rows.
Proof.
  unfold accessions. rewrite Nat.ltb_lt, list_elem_of_fmap. split.
  - intros Hlen.
    destruct (filter (λ r, accession_number r = acc) rows) as [|r l] eqn:E;
      [simpl in Hlen; lia|].
    assert (Hin : r ∈ filter (λ r, accession_number r = acc) rows)
      by (rewrite E; left).
    apply list_elem_of_filter in Hin as [Hacc Hin]. eauto.
  - intros (r & Hacc & Hin).
    assert (Hf : r ∈ filter (λ r, accession_number r = acc) rows)
      by (apply list_elem_of_filter; auto).
    destruct (filter _ rows); [inversion Hf | simpl; lia].
Qed.

Lemma count_zero_iff acc rows :
  (0 <? length (filter (λ r, accession_number r = acc) rows)) = false
  ↔ acc ∉ accessions rows.
Proof.
  rewrite <- count_pos_iff. destruct (0 <? _); split; congruence.
Qed.

(** A filing whose accession number is in the table is skipped. *)
Lemma process_filing_ledgered w max_retries ck tk path nf filing s :
  accessionNumber filing ∈ accessions (filings s) →
  process_filing w max_retries ck tk path nf filing s
  = Ok nf (with_event (EvPrint (MsgAlreadyDownloaded (accessionNumber filing))) s).
Proof.
  intros Hin. apply count_pos_iff in Hin.
  unfold process_filing, bind, select_count. rewrite Hin. reflexivity.
Qed.

Lemma quiet_filing_frame tk ck acc s s' : quiet s s' → filing_frame tk ck acc s s'.
Proof. intros [F D L T]. split; auto. Qed.

Lemma filing_frame_frame tk ck acc s s' : filing_frame tk ck acc s s' → frame tk s s'.
Proof.
  intros [F D L T]. split; auto.
  destruct F as [->|(Hacc & ft & rd & fp & ->)]; [apply ledger_grows_refl|].
  intros P HP H. by apply HP.
Qed.

Lemma filing_frame_insert_filing tk ck ft rd acc fp s0 s :
  quiet s0 s → acc ∉ accessions (filings s0) →
  ends_in (insert_filing tk ck ft rd acc fp s) (filing_frame tk ck acc s0).
Proof.
  intros [F D L (new & T & Pn)] Hacc. simpl. split; simpl; auto.
  - right. split; [done|]. rewrite F. eauto.
  - eexists (_ :: new). split; [by rewrite T|]. by constructor.
Qed.

Tactic Notation "quiet_step" constr(lem) "as" simple_intropattern(a) ident(s') :=
  match goal with
  | H : quiet ?s0 ?s1 |- ends_in (bind _ _ ?s1) _ =>
      eapply (ends_in_bind _ _ s1 (quiet s0));
      [ eapply ends_in_mono; [apply lem | intros ? ?; by etrans]
      | intros ? ?; by apply quiet_filing_frame
      | clear H; intros a s' _ H ]
  end.

(** An iteration leaves the table alone or inserts one row, and that only
    when the count of rows with the accession number was zero. *)
Lemma process_filing_effect w max_retries ck tk path nf filing s :
  ends_in (process_filing w max_retries ck tk path nf filing s)
    (filing_frame tk ck (accessionNumber filing) s).
Proof.
  unfold process_filing.
  unfold bind at 1, select_count.
  destruct (0 <? _) eqn:Hcount.
  { apply quiet_filing_frame. etrans; [|by apply quiet_event]. reflexivity. }
  apply count_zero_iff in Hcount.
  assert (H : quiet s s) by reflexivity. revert H. generalize s at 2 3 as s1.
  intros s1 H.
  quiet_step steps_download_with_retries as [retries response] s2. simpl.
  destruct (retries =? max_retries).
  { apply quiet_filing_frame. etrans; [exact H|]. by apply quiet_event. }
  destruct response as [content|]; [|by apply quiet_filing_frame].
  quiet_step steps_write_file as _ s3.
  quiet_step steps_print as _ s4; [done|].
  quiet_step steps_ZipFile as members s5.
  destruct (to_datetime_strftime w (reportDate filing)) as [rd|];
    [|by apply quiet_filing_frame].
  quiet_step steps_extract_members as nf' s6.
  quiet_step steps_os_remove as _ s7.
  destruct nf' as [name|]; [|by apply quiet_filing_frame].
  eapply (ends_in_bind _ _ _ (filing_frame tk ck (accessionNumber filing) s));
    [by apply filing_frame_insert_filing|done|].
  intros _ s8 _ Hf. exact Hf.
Qed.

Lemma steps_process_filing w max_retries ck tk path nf filing :
  steps (frame tk) (process_filing w max_retries ck tk path nf filing).
Proof.
  intros s. eapply ends_in_mono; [apply process_filing_effect|].
  intros s'. apply filing_frame_frame.
Qed.

Lemma steps_for_each_filing w max_retries ck tk path rows nf :
  steps (frame tk) (for_each_filing w max_retries ck tk path rows nf).
Proof.
  revert nf. induction rows as [|filing rows IH]; intros nf; simpl.
  - apply steps_ret, _.
  - apply steps_bind; [apply _ | apply steps_process_filing | intros nf'; apply IH].
Qed.

Lemma steps_download_and_unzip_filings w max_retries ck tk rows :
  steps (frame tk) (download_and_unzip_filings w max_retries ck tk rows).
Proof. apply steps_for_each_filing. Qed.

(** ** The rate-limited catalog call *)

Lemma get_filings_list_spec w ck s :
  let l := sec_rate_limiter s in
  let url := filings_url ck in
  0 < semaphore l →
  ∃ s',
    get_filings_list w ck s
    = match catalog w url (requests s) with
      | Recent all_forms =>
          Ok (filter (λ f, lower (form f) ∈ recognized_forms) all_forms) s'
      | CatalogRaises e => Raise e s'
      end
    ∧ fs s' = fs s ∧ filings s' = filings s ∧ durable s' = durable s
    ∧ requests s' = S (requests s)
    ∧ semaphore (sec_rate_limiter s') = semaphore l
    ∧ max_calls (sec_rate_limiter s') = max_calls l
    ∧ period (sec_rate_limiter s') = period l
    ∧ trace s'
      = [EvRelease (clock s') (outstanding l); EvCatalogGet url;
         EvAcquire (clock s) (outstanding l + 1)%Z] ++ trace s
    ∧ (clock s + period l <= clock s')%Q.
Proof.
  intros l url Hsem. subst l url.
  unfold get_filings_list, with_sec_rate_limiter, RateLimiter_enter,
    RateLimiter_exit, catalog_get, bind, time_time, time_sleep,
    semaphore_release, modify, ret, raise.
  destruct (sec_rate_limiter s) as [mc per sem tm] eqn:El. simpl in Hsem.
  destruct sem as [|n]; [lia|].
  cbn -[Qlt_le_dec Qplus Qminus filter].
  destruct (catalog w (filings_url ck) (requests s)) as [e|all_forms];
    cbn -[Qlt_le_dec Qplus Qminus filter];
    destruct (Qlt_le_dec _ _) as [Hlt|Hle];
    cbn -[Qlt_le_dec Qplus Qminus filter];
    (eexists; split; [reflexivity|]);
    cbn -[Qlt_le_dec Qplus Qminus filter];
    repeat split; try reflexivity; try lra;
    unfold outstanding; cbn [max_calls semaphore];
    assert (Z.of_nat mc - Z.of_nat n = Z.of_nat mc - Z.of_nat (S n) + 1)%Z
      as -> by lia; reflexivity.
Qed.

(** ** One entity *)

Lemma try_block_spec w max_retries row s :
  0 < semaphore (sec_rate_limiter s) →
  ends_in (try_block w max_retries row s) (λ s',
    ledger_grows (company_ticker row) (filings s) (filings s')
    ∧ (durable s' = durable s ∨ durable s' = filings s')
    ∧ semaphore (sec_rate_limiter s') = semaphore (sec_rate_limiter s)
    ∧ max_calls (sec_rate_limiter s') = max_calls (sec_rate_limiter s)
    ∧ ∃ new, trace s' = new ++ trace s
             ∧ processing_of new = []
             ∧ Forall (held_within (sec_rate_limiter s)) new).
Proof.
  intros Hsem. unfold try_block.
  destruct (get_filings_list_spec w (cik_str row) s Hsem)
    as (s1 & Hget & _ & F1 & D1 & _ & S1 & M1 & _ & T1 & _).
  assert (Hcall : Forall (held_within (sec_rate_limiter s))
            [EvRelease (clock s1) (outstanding (sec_rate_limiter s));
             EvCatalogGet (filings_url (cik_str row));
             EvAcquire (clock s) (outstanding (sec_rate_limiter s) + 1)%Z]).
  { repeat constructor; simpl; lia. }
  unfold bind at 1. rewrite Hget.
  destruct (catalog w _ _) as [e|all_forms]; simpl.
  { rewrite F1, D1, S1, M1, T1. repeat split; auto using ledger_grows_refl.
    eexists. split; [reflexivity|]. by split. }
  set (fl := filter _ all_forms).
  eapply (ends_in_bind _ _ _ (frame (company_ticker row) s1));
    [apply steps_download_and_unzip_filings| |].
  - intros s2 [F2 D2 L2 (new & T2 & P2)]. rewrite <- F1, D2, D1, L2, S1, M1.
    repeat split; auto.
    rewrite T2, T1, app_assoc. eexists. split; [reflexivity|]. split.
    + unfold processing_of. rewrite omap_app. fold (processing_of new).
      by rewrite (silent_processing new).
    + apply Forall_app. split; [by apply silent_held_within | done].
  - intros _ s2 _ [F2 D2 L2 (new & T2 & P2)]. simpl. rewrite <- F1, L2, S1, M1.
    repeat split; auto.
    rewrite T2, T1, app_assoc. eexists (EvCommit :: _). split; [reflexivity|].
    split.
    + unfold processing_of. cbn [omap list_omap]. rewrite omap_app.
      fold (processing_of new). by rewrite (silent_processing new).
    + constructor; [done|].
      apply Forall_app. split; [by apply silent_held_within | done].
Qed.

Lemma process_entity_spec w max_retries row s :
  0 < semaphore (sec_rate_limiter s) →
  ∃ s', process_entity w max_retries row s = Ok tt s' ∧ entity_frame row s s'.
Proof.
  intros Hsem. unfold process_entity, bind, print, emit, modify, try_except.
  set (s0 := with_event _ s).
  pose proof (try_block_spec w max_retries row s0 Hsem) as H.
  destruct (try_block w max_retries row s0) as [[] s1|e s1|]; simpl in H;
    [| |done]; destruct H as (F & D & S & Mc & new & T & P & Hh).
  - exists s1. split; [done|]. split; auto.
    exists new. by rewrite T.
  - eexists. split; [done|]. split; simpl; auto.
    exists (EvPrint (MsgErrorProcessing (company_ticker row) (cik_str row) e) :: new).
    rewrite T. split; [done|]. split; [done|]. by constructor.
Qed.

(** ** The loop over the entities *)

Lemma for_each_entity_spec w max_retries todo s :
  0 < semaphore (sec_rate_limiter s) →
  ∃ s', for_each_entity w max_retries todo s = Ok tt s' ∧ run_frame todo s s'.
Proof.
  revert s. induction todo as [|row todo IH]; intros s Hsem; simpl.
  - exists s. split; [done|]. split; auto. by exists [].
  - destruct (process_entity_spec w max_retries row s Hsem)
      as (s1 & Hrow & [F1 D1 S1 M1 (new1 & T1 & P1 & H1)]).
    destruct (IH s1) as (s2 & Hrest & [L2 S2 M2 (new2 & T2 & P2 & H2)]); [lia|].
    exists s2. unfold bind. rewrite Hrow. split; [done|]. split.
    + intros P HP Hf Hd. apply L2.
      * intros row' Hin. apply HP. by right.
      * apply F1; [apply HP; left | done].
      * destruct D1 as [-> | ->]; [done|]. apply F1; [apply HP; left | done].
    + congruence.
    + congruence.
    + exists (new2 ++ new1 ++ [EvPrint (MsgProcessing (company_ticker row) (cik_str row))]).
      split; [|split].
      * rewrite T2, T1, <- !app_assoc. done.
      * unfold processing_of in *. rewrite !omap_app, P2, P1. done.
      * apply Forall_app. split.
        { eapply Forall_impl; [exact H2|]. intros e. by apply held_within_same. }
        apply Forall_app. split; [done|]. by repeat constructor.
Qed.

Lemma main_unfold w max_retries company_data s :
  main w max_retries company_data s
  = (todo <- resume company_data (order_by_id_desc_limit_1 (durable s)) ;;
     for_each_entity w max_retries todo ;; close)
      (with_filings (λ _, durable s) s).
Proof. reflexivity. Qed.

Lemma resume_cases company_data last s :
  (∃ todo, resume company_data last s = Ok todo s
           ∧ todo ⊆ company_data)
  ∨ resume company_data last s = Raise IndexError s.
Proof.
  unfold resume. destruct last as [last|].
  - destruct (ticker_index company_data (ticker last)) as [i|]; [left|by right].
    eexists. split; [done|]. apply sublist_subseteq, sublist_drop.
  - left. by exists company_data.
Qed.

(** A run never blocks; it ends with [IndexError] before any entity is
    processed, or normally after a loop over the entities it resumed
    with. *)
Lemma main_spec w max_retries company_data s :
  0 < semaphore (sec_rate_limiter s) →
  let s0 := with_filings (λ _, durable s) s in
  (main w max_retries company_data s = Raise IndexError s0
   ∧ resume company_data (order_by_id_desc_limit_1 (durable s)) s0
     = Raise IndexError s0)
  ∨ ∃ todo s1,
      resume company_data (order_by_id_desc_limit_1 (durable s)) s0 = Ok todo s0
      ∧ todo ⊆ company_data
      ∧ run_frame todo s0 s1
      ∧ main w max_retries company_data s
        = Ok tt (with_filings (λ _, durable s1) s1).
Proof.
  intros Hsem s0. rewrite main_unfold. fold s0.
  destruct (resume_cases company_data (order_by_id_desc_limit_1 (durable s)) s0)
    as [(todo & Hres & Hsub)|Hres].
  - right. destruct (for_each_entity_spec w max_retries todo s0 Hsem)
      as (s1 & Hloop & Hframe).
    exists todo, s1. split; [done|]. split; [done|]. split; [done|].
    unfold bind. cbv beta. rewrite Hres, Hloop. reflexivity.
  - left. split; [|done]. unfold bind. cbv beta. by rewrite Hres.
Qed.

(** ** Pieces of trace *)

Lemma trace_since_app s s' new :
  trace s' = new ++ trace s → trace_since s s' = new.
Proof.
  intros H. unfold trace_since. rewrite H, length_app, Nat.add_sub.
  apply take_app_length.
Qed.

(** ** The retry loop *)

Lemma archive_gets_app t1 t2 :
  archive_gets (t1 ++ t2) = archive_gets t1 + archive_gets t2.
Proof. induction t1 as [|e t1 IH]; simpl; [done|]. rewrite IH. lia. Qed.

Lemma download_with_retries_failing w url FORM acc remaining retries response s :
  permanently_failing w url →
  ∃ s' new response',
    download_with_retries w url FORM acc remaining retries response s
    = Ok (retries + remaining, response') s'
    ∧ trace s' = new ++ trace s
    ∧ archive_gets new = remaining
    ∧ Forall (retry_event url) new
    ∧ requests s' = requests s + remaining
    ∧ fs s' = fs s ∧ filings s' = filings s ∧ durable s' = durable s.
Proof.
  intros Hfail. revert retries response s.
  induction remaining as [|remaining IH]; intros retries response s; simpl.
  { exists s, [], response. rewrite !Nat.add_0_r. by repeat split. }
  unfold bind at 1, requests_get. specialize (Hfail (requests s)).
  assert (Hstep : ∀ m response1,
    ∃ s' new response',
      (print m ;; time_sleep (1 # 20) ;;
       download_with_retries w url FORM acc remaining (S retries) response1)
        (with_event (EvArchiveGet url)
           (with_clock (clock s + latency w (requests s))%Q
              (with_requests (S (requests s)) s)))
      = Ok (retries + S remaining, response') s'
      ∧ trace s' = new ++ trace s
      ∧ archive_gets new = S remaining
      ∧ Forall (retry_event url) new
      ∧ requests s' = requests s + S remaining
      ∧ fs s' = fs s ∧ filings s' = filings s ∧ durable s' = durable s).
  { intros m response1. unfold bind, print, emit, time_sleep, modify.
    match goal with |- context [download_with_retries _ _ _ _ _ _ _ ?st] =>
      destruct (IH (S retries) response1 st)
        as (s' & new & resp' & Hrun & T & G & U & R & F & L & D)
    end.
    exists s', (new ++ [EvPrint m; EvArchiveGet url]), resp'.
    rewrite Hrun, T, R, F, L, D, <- app_assoc, archive_gets_app, G.
    replace (S retries + remaining) with (retries + S remaining) by lia.
    repeat split; auto; try (simpl; lia).
    apply Forall_app. split; [done|]. by repeat constructor. }
  destruct (archive w url (requests s)) as [status_code content|e].
  - apply Z.eqb_neq in Hfail. rewrite Hfail. apply Hstep.
  - subst e. apply Hstep.
Qed.

(** ** The resume cursor *)

Lemma order_by_id_keeps last rows :
  (∀ r, r ∈ rows → r = last ∨ id r < id last) →
  foldl (λ best r, match best with
                   | None => Some r
                   | Some b => if id b <? id r then Some r else Some b
                   end) (Some last) rows = Some last.
Proof.
  induction rows as [|r rows IH]; intros H; simpl; [done|].
  assert ((id last <? id r) = false) as ->.
  { apply Nat.ltb_ge. destruct (H r) as [->|]; [left|lia|lia]. }
  apply IH. intros r' Hr'. apply H. by right.
Qed.

Lemma order_by_id_finds last rows best :
  last ∈ rows →
  (∀ r, r ∈ rows → r = last ∨ id r < id last) →
  match best with None => True | Some b => id b < id last end →
  foldl (λ best r, match best with
                   | None => Some r
                   | Some b => if id b <? id r then Some r else Some b
                   end) best rows = Some last.
Proof.
  revert best. induction rows as [|r rows IH]; intros best Hin H Hbest.
  { inversion Hin. }
  simpl. destruct (decide (r = last)) as [->|Hne].
  - assert (match best with
            | None => Some last
            | Some b => if id b <? id last then Some last else Some b
            end = Some last) as ->.
    { destruct best as [b|]; [|done].
      by apply Nat.ltb_lt in Hbest as ->. }
    apply order_by_id_keeps. intros r' Hr'. apply H. by right.
  - apply IH.
    + apply elem_of_cons in Hin as [->|]; done.
    + intros r' Hr'. apply H. by right.
    + destruct (H r) as [->|Hlt]; [left|done|].
      destruct best as [b|]; [|done]. by destruct (id b <? id r).
Qed.

(** The query returns the row with the highest [id]. *)
Lemma order_by_id_desc_limit_1_highest last rows :
  last ∈ rows →
  (∀ r, r ∈ rows → r = last ∨ id r < id last) →
  order_by_id_desc_limit_1 rows = Some last.
Proof. intros Hin H. by apply order_by_id_finds. Qed.

Lemma ticker_index_first pre E post t :
  company_ticker E = t →
  (∀ row, row ∈ pre → company_ticker row ≠ t) →
  ticker_index (pre ++ E :: post) t = Some (length pre).
Proof.
  intros HE Hpre. unfold ticker_index.
  assert (list_find (λ row, company_ticker row = t) (pre ++ E :: post)
          = Some (length pre, E)) as ->; [|done].
  apply list_find_Some. split; [|split; [done|]].
  - by rewrite list_lookup_middle.
  - intros j row Hj Hlt. apply Hpre. apply list_elem_of_lookup. exists j.
    by rewrite lookup_app_l in Hj.
Qed.

Lemma run_script_unfold w max_retries company_data s :
  run_script w max_retries company_data s
  = main w max_retries company_data (with_limiter (RateLimiter_init 10 1) s).
Proof. reflexivity. Qed.

(** ** Uniqueness of accession numbers *)

Lemma accessions_insert_row tk ck ft rd acc fp rows :
  accessions (insert_row tk ck ft rd acc fp rows) = accessions rows ++ [acc].
Proof. unfold accessions, insert_row. by rewrite fmap_app. Qed.

Lemma insert_closed_NoDup tk : insert_closed tk (λ rows, NoDup (accessions rows)).
Proof.
  intros rows ck ft rd acc fp Hnd Hacc. rewrite accessions_insert_row.
  apply NoDup_app. split; [done|]. split; [|apply NoDup_singleton].
  intros x Hx Hx'. apply list_elem_of_singleton in Hx' as ->. done.
Qed.

Lemma run_script_ledger_invariant (P : list LedgerRecord → Prop)
    w max_retries company_data s s' :
  (∀ row, row ∈ company_data → insert_closed (company_ticker row) P) →
  P (durable s) →
  state_of (run_script w max_retries company_data s) = Some s' →
  P (filings s') ∧ P (durable s').
Proof.
  intros HP Hd. rewrite run_script_unfold.
  set (s1 := with_limiter (RateLimiter_init 10 1) s).
  destruct (main_spec w max_retries company_data s1)
    as [[-> _]|(todo & s2 & _ & Hsub & [L _ _ _] & ->)]; [simpl; lia| |].
  - intros [= <-]. by simpl.
  - intros [= <-]. simpl.
    destruct (L P) as [_ H2];
      [intros row Hrow; apply HP; by apply Hsub | done | done | by split].
Qed.

Lemma reachable_unique s :
  reachable s → NoDup (accessions (filings s)) ∧ NoDup (accessions (durable s)).
Proof.
  induction 1 as [s F D|w N cd s s' _ [IHf IHd] Hrun|s s' _ [IHf IHd] Hrun
                  |w N ck tk path nf filing s s' _ [IHf IHd] Hrun
                  |s s' _ [IHf IHd] Hrun|s s' _ [IHf IHd] Hrun
                  |s s' _ [IHf IHd] F D].
  - rewrite F, D. split; apply NoDup_nil_2.
  - eapply (run_script_ledger_invariant (λ rows, NoDup (accessions rows)));
      eauto using insert_closed_NoDup.
  - injection Hrun as <-. by simpl.
  - pose proof (process_filing_effect w N ck tk path nf filing s) as He.
    destruct (process_filing w N ck tk path nf filing s) as [a s1|e s1|];
      simpl in *; [| |done]; injection Hrun as <-;
      apply filing_frame_frame in He as [F D _ _];
      (split; [by apply (F _ (insert_closed_NoDup tk)) | by rewrite D]).
  - injection Hrun as <-. by simpl.
  - injection Hrun as <-. by simpl.
  - by rewrite F, D.
Qed.

(** ** Names and paths *)

Lemma append_cons x (a b : string) : String x a +:+ b = String x (a +:+ b).
Proof. reflexivity. Qed.

Lemma append_nil (b : string) : "" +:+ b = b.
Proof. reflexivity. Qed.

Lemma append_assoc (a b c : string) : (a +:+ b) +:+ c = a +:+ (b +:+ c).
Proof.
  induction a as [|x a IH]; [by rewrite !append_nil|].
  by rewrite !append_cons, IH.
Qed.

Lemma append_length (a b : string) :
  String.length (a +:+ b) = String.length a + String.length b.
Proof.
  induction a as [|x a IH]; [by rewrite append_nil|].
  rewrite append_cons. simpl. by rewrite IH.
Qed.

Lemma lower_append (a b : string) : lower (a +:+ b) = lower a +:+ lower b.
Proof.
  induction a as [|x a IH]; [by rewrite append_nil|].
  rewrite append_cons. simpl. by rewrite IH, append_cons.
Qed.

Lemma ends_append a b suffix : ends b suffix → ends (a +:+ b) suffix.
Proof. intros [p ->]. exists (a +:+ p). by rewrite append_assoc. Qed.

Lemma ends_lower s suffix : ends s suffix → ends (lower s) (lower suffix).
Proof. intros [p ->]. exists (lower p). apply lower_append. Qed.

Lemma endswith_ends s suffix : endswith s suffix = true → ends s suffix.
Proof.
  induction s as [|x s IH].
  - destruct suffix; [|done]. intros _. by exists "".
  - change (endswith (String x s) suffix)
      with (if String.eqb (String x s) suffix then true else endswith s suffix).
    destruct (String.eqb (String x s) suffix) eqn:E.
    + apply String.eqb_eq in E as <-. intros _. by exists "".
    + intros H. destruct (IH H) as [p ->]. by exists (String x p).
Qed.

(** Two suffixes of one string that have the same length are equal. *)
Lemma ends_same_length s a b :
  ends s a → ends s b → String.length a = String.length b → a = b.
Proof.
  intros [p ->] [q Hq]. revert q Hq.
  induction p as [|x p IH]; intros q Hq Hlen.
  - rewrite append_nil in Hq.
    apply (f_equal String.length) in Hq as Hl. rewrite append_length in Hl.
    destruct q; [by rewrite append_nil in Hq | simpl in Hl; lia].
  - destruct q as [|y q].
    + rewrite append_nil, append_cons in Hq.
      apply (f_equal String.length) in Hq. simpl in Hq.
      rewrite append_length in Hq. lia.
    + rewrite !append_cons in Hq. injection Hq as _ Hq. by apply (IH q).
Qed.

Lemma path_join_inj dir a b : dir </> a = dir </> b → a = b.
Proof.
  unfold path_join. intros H.
  apply (inj (String.append dir)) in H. by apply (inj (String.append "/")) in H.
Qed.

Lemma xbrl_name_ends ft rd tk : ends (xbrl_name ft rd tk) "xbrl".
Proof.
  unfold xbrl_name. do 6 apply ends_append. by exists "].".
Qed.

(** A member the extractor takes never has the name it is renamed to. *)
Lemma xml_not_xbrl_name f ft rd tk :
  endswith (lower f) ".xml" = true → f ≠ xbrl_name ft rd tk.
Proof.
  intros Hxml ->. apply endswith_ends in Hxml.
  pose proof (ends_lower _ _ (xbrl_name_ends ft rd tk)) as Hx.
  by pose proof (ends_same_length _ _ _ Hxml Hx eq_refl).
Qed.

(** Nor the name of the downloaded package. *)
Lemma xml_not_zip f acc :
  endswith (lower f) ".xml" = true → f ≠ acc +:+ "-xbrl.zip".
Proof.
  intros Hxml ->. apply endswith_ends in Hxml.
  assert (Hz : ends (lower (acc +:+ "-xbrl.zip")) ".zip").
  { apply (ends_lower _ ".zip"), ends_append. by exists "-xbrl". }
  by pose proof (ends_same_length _ _ _ Hxml Hz eq_refl).
Qed.

Lemma xbrl_name_not_zip ft rd tk acc :
  xbrl_name ft rd tk ≠ acc +:+ "-xbrl.zip".
Proof.
  intros H. pose proof (xbrl_name_ends ft rd tk) as Hx. rewrite H in Hx.
  assert (Hz : ends (acc +:+ "-xbrl.zip") ".zip").
  { apply ends_append. by exists "-xbrl". }
  by pose proof (ends_same_length _ _ _ Hx Hz eq_refl).
Qed.

Lemma getinfo_namelist members f :
  f ∈ namelist members → is_Some (getinfo members f).
Proof.
  unfold namelist, getinfo. intros Hin.
  apply list_elem_of_fmap in Hin as ([n d] & -> & Hin).
  apply fmap_is_Some.
  destruct (last (filter (λ m, m.1 = (n, d).1) members)) eqn:E; [done|].
  apply last_None in E.
  assert (H : (n, d) ∈ filter (λ m, m.1 = (n, d).1) members)
    by (by apply list_elem_of_filter).
  rewrite E in H. inversion H.
Qed.

(** ** Extraction *)

Lemma extract_one_lookup dir name f d (m : gmap string file) p :
  f ≠ name →
  extract_one dir name f d m !! p
  = if decide (p = dir </> name) then Some (FData d)
    else if decide (p = dir </> f) then None
    else m !! p.
Proof.
  intros Hne. unfold extract_one.
  assert (dir </> f ≠ dir </> name) by (intros H; by apply path_join_inj in H).
  repeat case_decide; subst; case_bool_decide; by simplify_map_eq.
Qed.

Lemma plain_char_no_slash c : plain_char c = true → Ascii.eqb c "/" = false.
Proof.
  intros Hc. destruct (Ascii.eqb_spec c "/") as [->|]; [|done].
  vm_compute in Hc. discriminate Hc.
Qed.

Lemma plain_split f : plain_name f = true → split_slash f = [f].
Proof.
  induction f as [|c f IH]; [done|]. cbn [plain_name split_slash].
  intros [Hc Hf]%andb_prop. by rewrite (plain_char_no_slash c Hc), (IH Hf).
Qed.

Lemma xml_name_proper f :
  endswith (lower f) ".xml" = true → f ∉ [""; "."; ".."].
Proof.
  intros Hxml Hin.
  repeat (apply elem_of_cons in Hin as [->|Hin];
          [vm_compute in Hxml; discriminate Hxml|]).
  inversion Hin.
Qed.

(** A plain name is extracted under itself, where the script looks for
    it. *)
Lemma plain_arcname f :
  plain_name f = true → endswith (lower f) ".xml" = true → arcname f = f.
Proof.
  intros Hp Hxml. unfold arcname. rewrite (plain_split f Hp).
  rewrite filter_cons, decide_True by (by apply xml_name_proper). done.
Qed.

Lemma plain_member_path dir f :
  plain_name f = true → endswith (lower f) ".xml" = true →
  member_path dir f = dir </> f.
Proof.
  intros Hp Hxml. unfold member_path. rewrite (plain_split f Hp).
  assert (Hne : f ∉ [""; "."]).
  { intros Hin. apply (xml_name_proper f Hxml).
    apply elem_of_cons in Hin as [->|Hin]; [left|].
    apply list_elem_of_singleton in Hin as ->. right. left. }
  rewrite filter_cons, decide_True by done.
  destruct f as [|c f]; [by destruct Hne; left|].
  cbn [plain_name] in Hp. apply andb_prop in Hp as [Hc _].
  by rewrite (plain_char_no_slash c Hc).
Qed.

Lemma extract_and_rename_spec members dir name f d s :
  getinfo members f = Some d → f ≠ name →
  plain_name f = true → endswith (lower f) ".xml" = true →
  ∃ s1,
    extract_and_rename members dir name f s = Ok tt s1
    ∧ fs s1 = extract_one dir name f d (fs s)
    ∧ trace s1 = [EvRename (dir </> f) (dir </> name); EvExtract f dir] ++ trace s.
Proof.
  intros Hinfo Hne Hp Hxml.
  assert (dir </> f ≠ dir </> name) by (intros H; by apply path_join_inj in H).
  unfold extract_and_rename, zip_extract.
  rewrite Hinfo, (plain_arcname f Hp Hxml), (plain_member_path dir f Hp Hxml).
  unfold bind, emit, write_file, modify, path_exists, os_remove, os_rename, ret.
  cbn [fs with_fs with_event]. unfold extract_one.
  case_bool_decide as Hex; cbn [fs with_fs with_event].
  - destruct Hex as [x Hx]. rewrite Hx. cbn [fs with_fs with_event].
    rewrite lookup_delete_ne, lookup_insert_eq by done.
    eexists. split; [reflexivity|]. split; reflexivity.
  - rewrite lookup_insert_eq.
    eexists. split; [reflexivity|]. split; reflexivity.
Qed.

Lemma xml_files_cons f files :
  xml_files (f :: files)
  = if endswith (lower f) ".xml" then f :: xml_files files else xml_files files.
Proof.
  unfold xml_files. rewrite filter_cons.
  destruct (endswith (lower f) ".xml"); by case_decide.
Qed.

Lemma extract_members_spec members dir name files nf s :
  (∀ f, f ∈ files → is_Some (getinfo members f)) →
  (∀ f, f ∈ xml_files files → f ≠ name) →
  Forall (λ f, plain_name f = true) (xml_files files) →
  ∃ s' new,
    extract_members members dir name files nf s
    = Ok (match xml_files files with [] => nf | _ => Some name end) s'
    ∧ (∀ p, fs s' !! p = extracted_lookup members dir name files (fs s) p)
    ∧ trace s' = new ++ trace s
    ∧ renames_of new = rev ((λ f, (dir </> f, dir </> name)) <$> xml_files files).
Proof.
  revert nf s. induction files as [|f files IH]; intros nf s Hinfo Hname Hplain.
  { exists s, []. by repeat split. }
  simpl extract_members. rewrite xml_files_cons in *.
  destruct (endswith (lower f) ".xml") eqn:Hxml.
  - destruct (Hinfo f) as [d Hd]; [left|].
    assert (Hne : f ≠ name) by (apply Hname; left).
    apply Forall_cons in Hplain as [Hp Hplain].
    destruct (extract_and_rename_spec members dir name f d s Hd Hne Hp Hxml)
      as (s1 & Hstep & Hfs1 & T1).
    destruct (IH (Some name) s1) as (s' & new & Hrun & Hfs & T & R).
    { intros f' Hf'. apply Hinfo. by right. }
    { intros f' Hf'. apply Hname. by right. }
    { done. }
    exists s', (new ++ [EvRename (dir </> f) (dir </> name); EvExtract f dir]).
    unfold bind. rewrite Hstep, Hrun. split; [by destruct (xml_files files)|].
    split; [|split].
    + intros p. rewrite Hfs. unfold extracted_lookup.
      rewrite Hfs1, xml_files_cons, Hxml.
      destruct (xml_files files) as [|x xs] eqn:Ex.
      * simpl. rewrite extract_one_lookup by done. rewrite Hd.
        repeat destruct (decide _); try done;
          exfalso; set_unfold; firstorder congruence.
      * change (last (f :: x :: xs)) with (last (x :: xs)).
        destruct (last (x :: xs)) as [l|] eqn:El; [|by apply last_None in El].
        rewrite extract_one_lookup by done. rewrite fmap_cons.
        repeat destruct (decide _); try done;
          exfalso; set_unfold; firstorder congruence.
    + by rewrite T, T1, <- app_assoc.
    + unfold renames_of in *. rewrite omap_app, R, fmap_cons. simpl.
      done.
  - destruct (IH nf s) as (s' & new & Hrun & Hfs & T & R).
    { intros f' Hf'. apply Hinfo. by right. }
    { done. }
    { done. }
    exists s', new. split; [done|]. split; [|done].
    intros p. rewrite Hfs. unfold extracted_lookup.
    by rewrite xml_files_cons, Hxml.
Qed.

(** ** A filing that is downloaded *)

#[global] Instance same_disk_preorder :
  PreOrder (λ s s' : state, fs s' = fs s).
Proof. split; [done|]. intros s1 s2 s3 H1 H2. congruence. Qed.

Lemma download_with_retries_disk w url FORM acc remaining retries response :
  steps (λ s s', fs s' = fs s)
    (download_with_retries w url FORM acc remaining retries response).
Proof.
  revert retries response.
  induction remaining as [|remaining IH]; intros retries response; simpl.
  - by intros s.
  - apply steps_bind; [apply _ | by intros s | intros r].
    destruct r as [status_code content|e].
    + destruct (status_code =? 200)%Z; [by intros s|].
      apply steps_bind; [apply _ | by intros s | intros _].
      apply steps_bind; [apply _ | by intros s | intros _]. apply IH.
    + destruct e; try (by intros s).
      apply steps_bind; [apply _ | by intros s | intros _].
      apply steps_bind; [apply _ | by intros s | intros _]. apply IH.
Qed.

Lemma download_with_retries_result w url FORM acc max_retries s r s1 :
  download_with_retries w url FORM acc max_retries 0 None s = Ok r s1 →
  fs s1 = fs s ∧ filings s1 = filings s ∧ durable s1 = durable s.
Proof.
  intros Hrun.
  pose proof (download_with_retries_disk w url FORM acc max_retries 0 None s) as Hd.
  pose proof (steps_download_with_retries w url FORM acc max_retries 0 None s) as Hq.
  rewrite Hrun in Hd, Hq. simpl in Hd, Hq. by destruct Hq.
Qed.

(** The iteration up to the opening of the downloaded package. *)
Lemma process_filing_downloaded w max_retries ck tk path nf filing s k content s1 :
  let acc := accessionNumber filing in
  let ft := lower (form filing) in
  let zip := path </> ft </> (acc +:+ "-xbrl.zip") in
  acc ∉ accessions (filings s) →
  download_with_retries w (xbrl_zip_url ck acc) (upper ft) acc max_retries 0 None s
  = Ok (k, Some content) s1 →
  k ≠ max_retries →
  process_filing w max_retries ck tk path nf filing s
  = (members <- ZipFile zip ;;
     match to_datetime_strftime w (reportDate filing) with
     | None => raise ValueError
     | Some report_date =>
         new_filename <-
           extract_members members (path </> ft)
             (xbrl_name ft report_date tk) (namelist members) nf ;;
         os_remove zip ;;
         match new_filename with
         | None => raise UnboundLocalError
         | Some name =>
             insert_filing tk ck ft report_date acc (path </> ft </> name) ;;
             ret new_filename
         end
     end)
      (with_event (EvPrint (MsgDownloaded (upper ft) acc))
         (with_fs (insert zip (FPackage content)) s1)).
Proof.
  intros acc ft zip Hacc Hrun Hk. apply count_zero_iff in Hacc.
  unfold process_filing. unfold bind at 1, select_count.
  fold acc. rewrite Hacc. unfold bind at 1. fold ft. rewrite Hrun.
  cbn [fst snd]. apply Nat.eqb_neq in Hk. rewrite Hk. reflexivity.
Qed.

Lemma renames_of_app t1 t2 :
  renames_of (t1 ++ t2) = renames_of t1 ++ renames_of t2.
Proof. apply omap_app. Qed.

Lemma ZipFile_archive zip members s :
  fs s !! zip = Some (FPackage (Archive members)) →
  ZipFile zip s = Ok members (with_event (EvOpenZip zip) s).
Proof. intros H. unfold ZipFile, bind, emit, modify. simpl. by rewrite H. Qed.

Lemma ZipFile_corrupt zip s :
  fs s !! zip = Some (FPackage Corrupt) →
  ZipFile zip s = Raise BadZipFile (with_event (EvOpenZip zip) s).
Proof. intros H. unfold ZipFile, bind, emit, modify. simpl. by rewrite H. Qed.

Lemma os_remove_present p x s :
  fs s !! p = Some x → os_remove p s = Ok tt (with_fs (delete p) s).
Proof. intros H. unfold os_remove. by rewrite H. Qed.

(** A downloaded package with at least one member to take: the iteration
    ends normally, and disk and ledger are as described. *)
Lemma process_filing_extracted
    w max_retries ck tk path nf filing s k members s1 rd :
  let acc := accessionNumber filing in
  let ft := lower (form filing) in
  let dir := path </> ft in
  let name := xbrl_name ft rd tk in
  let zip := dir </> (acc +:+ "-xbrl.zip") in
  let taken := xml_files (namelist members) in
  acc ∉ accessions (filings s) →
  download_with_retries w (xbrl_zip_url ck acc) (upper ft) acc max_retries 0 None s
  = Ok (k, Some (Archive members)) s1 →
  k ≠ max_retries →
  to_datetime_strftime w (reportDate filing) = Some rd →
  taken ≠ [] →
  Forall (λ f, plain_name f = true) taken →
  ∃ s' new,
    process_filing w max_retries ck tk path nf filing s = Ok (Some name) s'
    ∧ (∀ p, fs s' !! p
            = if decide (p = zip) then None
              else extracted_lookup members dir name (namelist members) (fs s) p)
    ∧ trace s' = new ++ trace s1
    ∧ renames_of new = rev ((λ f, (dir </> f, dir </> name)) <$> taken)
    ∧ filings s' = insert_row tk ck ft rd acc (dir </> name) (filings s)
    ∧ durable s' = durable s.
Proof.
  intros acc ft dir name zip taken Hacc Hrun Hk Hdate Htaken Hplain.
  rewrite (process_filing_downloaded w max_retries ck tk path nf filing s k
             (Archive members) s1 Hacc Hrun Hk).
  fold acc ft dir zip.
  destruct (download_with_retries_result _ _ _ _ _ _ _ _ Hrun) as (Hfs1 & Hf1 & Hd1).
  set (s2 := with_event _ (with_fs _ s1)).
  unfold bind at 1. rewrite (ZipFile_archive zip members s2)
    by (simpl; apply lookup_insert_eq).
  rewrite Hdate. fold name.
  destruct (extract_members_spec members dir name (namelist members) nf
              (with_event (EvOpenZip zip) s2))
    as (s3 & new & Hext & Hfs3 & T3 & R3).
  { intros f. apply getinfo_namelist. }
  { intros f Hf. apply list_elem_of_filter in Hf as [Hf _].
    by apply xml_not_xbrl_name. }
  { exact Hplain. }
  pose proof (steps_extract_members members dir name (namelist members) nf
                (with_event (EvOpenZip zip) s2)) as Hq.
  rewrite Hext in Hq. destruct Hq as [Fq Dq _ _].
  cbn [filings durable with_event with_fs s2] in Fq, Dq.
  assert (match xml_files (namelist members) with
          | [] => nf
          | _ => Some name
          end = Some name) as Hsome.
  { fold taken. by destruct taken. }
  rewrite Hsome in Hext. clear Hsome.
  unfold bind at 1. rewrite Hext.
  assert (Hzip_dest : zip ≠ dir </> name).
  { intros H. apply path_join_inj in H. symmetry in H.
    by apply xbrl_name_not_zip in H. }
  assert (Hzip_src : zip ∉ path_join dir <$> taken).
  { intros H. apply list_elem_of_fmap in H as (f & H & Hf).
    apply path_join_inj in H. apply list_elem_of_filter in Hf as [Hf _].
    symmetry in H. by apply xml_not_zip in H. }
  assert (Hzip3 : fs s3 !! zip = Some (FPackage (Archive members))).
  { rewrite Hfs3. unfold extracted_lookup. fold taken.
    destruct (last taken); simpl; repeat case_decide; try done;
      apply lookup_insert_eq. }
  unfold bind at 1. rewrite (os_remove_present _ _ _ Hzip3).
  unfold bind, insert_filing, ret.
  eexists _, (EvInsert _ :: new ++ [EvOpenZip zip;
                                    EvPrint (MsgDownloaded (upper ft) acc)]).
  split; [reflexivity|]. cbn [fs filings durable trace with_fs with_event with_filings].
  split; [|split; [|split; [|split]]].
  - intros p. case_decide as Hp; [subst; apply lookup_delete_eq|].
    rewrite lookup_delete_ne, Hfs3 by done. unfold extracted_lookup.
    cbn [fs with_fs with_event s2]. rewrite lookup_insert_ne, Hfs1 by done.
    done.
  - rewrite T3. cbn [trace with_event with_fs s2 app]. f_equal.
    by rewrite <- app_assoc.
  - match goal with |- renames_of (?e :: ?l) = _ =>
      change (renames_of (e :: l)) with (renames_of l)
    end.
    rewrite renames_of_app, R3. apply app_nil_r.
  - by rewrite Fq, Hf1.
  - by rewrite Dq.
Qed.

(** ** Entity-level exceptions *)

(** When the [try] block raises, nothing was committed in it. *)
Lemma try_block_raise w max_retries row s e s1 :
  0 < semaphore (sec_rate_limiter s) →
  try_block w max_retries row s = Raise e s1 →
  durable s1 = durable s.
Proof.
  intros Hsem. unfold try_block.
  destruct (get_filings_list_spec w (cik_str row) s Hsem)
    as (s2 & Hget & _ & _ & D2 & _).
  unfold bind at 1. rewrite Hget.
  destruct (catalog w _ _) as [e'|all_forms].
  { intros [= _ <-]. done. }
  set (fl := filter _ all_forms).
  pose proof (steps_download_and_unzip_filings w max_retries (cik_str row)
                (company_ticker row) fl s2) as Hd.
  unfold bind.
  destruct (download_and_unzip_filings w max_retries (cik_str row)
              (company_ticker row) fl s2) as [[] s3|e' s3|]; simpl in Hd; [| |done].
  - discriminate.
  - intros [= _ <-]. destruct Hd as [_ D3 _ _]. congruence.
Qed.

(** ** A run that finds everything in the ledger *)

#[global] Instance idle_preorder : PreOrder idle.
Proof.
  split.
  - intros s. split; auto. by exists [].
  - intros s1 s2 s3 [A1 B1 C1 D1 (n1 & T1 & G1 & F1)] [A2 B2 C2 D2 (n2 & T2 & G2 & F2)].
    split; try congruence.
    exists (n2 ++ n1). rewrite T2, T1, app_assoc, archive_gets_app, G1, G2.
    split; [done|]. split; [done|]. by apply Forall_app.
Qed.

Lemma idle_event e s :
  is_archive_get e = false → is_extraction e = false → is_insert e = false →
  idle s (with_event e s).
Proof.
  intros H1 H2 H3. split; auto. exists [e]. simpl. rewrite H1.
  split; [done|]. split; [done|]. by repeat constructor.
Qed.

Lemma for_each_filing_ledgered w max_retries ck tk path rows nf s :
  (∀ f, f ∈ rows → accessionNumber f ∈ accessions (filings s)) →
  ∃ s', for_each_filing w max_retries ck tk path rows nf s = Ok tt s' ∧ idle s s'.
Proof.
  revert s. induction rows as [|f rows IH]; intros s Hall; simpl.
  { exists s. split; [done|reflexivity]. }
  unfold bind. rewrite process_filing_ledgered by (apply Hall; left).
  destruct (IH (with_event (EvPrint (MsgAlreadyDownloaded (accessionNumber f))) s))
    as (s' & Hrun & Hidle).
  { intros f' Hf'. apply Hall. by right. }
  exists s'. split; [done|]. etrans; [|exact Hidle]. by apply idle_event.
Qed.

Lemma process_entity_idle w max_retries row s :
  0 < semaphore (sec_rate_limiter s) →
  filings s = durable s →
  (∀ n all_forms f,
     catalog w (filings_url (cik_str row)) n = Recent all_forms →
     f ∈ all_forms → lower (form f) ∈ recognized_forms →
     accessionNumber f ∈ accessions (filings s)) →
  ∃ s', process_entity w max_retries row s = Ok tt s' ∧ idle s s'.
Proof.
  intros Hsem Heq Hall.
  unfold process_entity, bind, print, emit, modify, try_except, try_block.
  set (s0 := with_event _ s).
  destruct (get_filings_list_spec w (cik_str row) s0 Hsem)
    as (s1 & Hget & A1 & F1 & D1 & _ & S1 & _ & _ & T1 & _).
  assert (H01 : idle s s1).
  { split; auto. eexists [_; _; _; _]. rewrite T1. simpl.
    split; [reflexivity|]. split; [done|]. by repeat constructor. }
  unfold bind. rewrite Hget.
  destruct (catalog w (filings_url (cik_str row)) (requests s0))
    as [e|all_forms] eqn:Ecat.
  { eexists. split; [reflexivity|]. etrans; [exact H01|]. by apply idle_event. }
  destruct (for_each_filing_ledgered w max_retries (cik_str row)
              (company_ticker row) ("D:/Filings" </> company_ticker row)
              (filter (λ f, lower (form f) ∈ recognized_forms) all_forms) None s1)
    as (s2 & Hloop & H12).
  { intros f Hf. apply list_elem_of_filter in Hf as [Hform Hf]. rewrite F1.
    by apply (Hall (requests s0) all_forms). }
  unfold download_and_unzip_filings. rewrite Hloop. simpl.
  eexists. split; [reflexivity|].
  assert (H02 : idle s s2) by (by etrans).
  destruct H02 as [A B C D (new & T & G & F)].
  split; simpl; auto; [congruence|].
  exists (EvCommit :: new). rewrite T. split; [done|]. split; [done|].
  by constructor.
Qed.

Lemma for_each_entity_idle w max_retries todo s :
  0 < semaphore (sec_rate_limiter s) →
  filings s = durable s →
  all_ledgered w todo (filings s) →
  ∃ s', for_each_entity w max_retries todo s = Ok tt s' ∧ idle s s'.
Proof.
  revert s. induction todo as [|row todo IH]; intros s Hsem Heq Hall; simpl.
  { exists s. split; [done|reflexivity]. }
  destruct (process_entity_idle w max_retries row s Hsem Heq) as (s1 & Hrow & H1).
  { intros n all_forms f. apply Hall. left. }
  destruct (IH s1) as (s2 & Hrest & H2).
  { destruct H1. lia. }
  { destruct H1. congruence. }
  { intros row' n all_forms f Hin. destruct H1 as [_ -> _ _ _].
    apply Hall. by right. }
  exists s2. unfold bind. rewrite Hrow. split; [done|]. by etrans.
Qed.

Lemma id_lt_next_id r rows : r ∈ rows → id r < next_id rows.
Proof.
  unfold next_id. intros Hin. apply Nat.lt_succ_r.
  induction rows as [|r' rows IH]; [inversion Hin|].
  rewrite fmap_cons. cbn [foldr].
  apply elem_of_cons in Hin as [->|Hin]; [lia|].
  specialize (IH Hin). lia.
Qed.

(** After an insertion the resume query finds the row inserted. *)
Lemma order_by_id_insert_row tk ck ft rd acc fp rows :
  ticker <$> order_by_id_desc_limit_1 (insert_row tk ck ft rd acc fp rows)
  = Some tk.
Proof.
  unfold insert_row.
  rewrite (order_by_id_desc_limit_1_highest
             {| id := next_id rows; ticker := tk; cik := ck; form_type := ft;
                report_date := rd; accession_number := acc; file_path := fp |});
    [reflexivity| |].
  - apply elem_of_app. right. left.
  - intros r Hr. apply elem_of_app in Hr as [Hr|Hr].
    + right. simpl. by apply id_lt_next_id.
    + left. by apply list_elem_of_singleton in Hr.
Qed.

Lemma insert_closed_last_ticker tk tickers :
  tk ∈ tickers → insert_closed tk (last_ticker_known tickers).
Proof.
  intros Htk rows ck ft rd acc fp _ _ last Hlast.
  pose proof (order_by_id_insert_row tk ck ft rd acc fp rows) as H.
  rewrite Hlast in H. simpl in H. by injection H as ->.
Qed.

Lemma resume_ok_known company_data rows s todo :
  resume company_data (order_by_id_desc_limit_1 rows) s = Ok todo s →
  last_ticker_known (company_ticker <$> company_data) rows.
Proof.
  intros Hres last Hlast. rewrite Hlast in Hres. unfold resume, ticker_index in Hres.
  destruct (list_find _ company_data) as [[i row]|] eqn:Efind; [|done].
  apply list_find_Some in Efind as (Hi & <- & _).
  apply list_elem_of_fmap. exists row. split; [done|].
  by apply list_elem_of_lookup_2 in Hi.
Qed.

Lemma resume_known_ok company_data rows s :
  last_ticker_known (company_ticker <$> company_data) rows →
  ∃ todo, resume company_data (order_by_id_desc_limit_1 rows) s = Ok todo s
          ∧ todo ⊆ company_data.
Proof.
  intros Hknown.
  destruct (resume_cases company_data (order_by_id_desc_limit_1 rows) s)
    as [H|Hraise]; [done|].
  exfalso. unfold resume in Hraise.
  destruct (order_by_id_desc_limit_1 rows) as [last|] eqn:Elast; [|done].
  specialize (Hknown last Elast).
  apply list_elem_of_fmap in Hknown as (row & Hticker & Hin).
  unfold ticker_index in Hraise.
  destruct (list_find_elem_of (λ r, company_ticker r = ticker last)
              company_data row Hin) as [[i x] Hfind]; [done|].
  by rewrite Hfind in Hraise.
Qed.

(** ** Permits over a run *)

(** In a run of the script every move of the limiter happens with no
    permit outstanding before it and one during it. *)
Lemma run_script_permits w max_retries company_data s s' :
  state_of (run_script w max_retries company_data s) = Some s' →
  Forall (permits_bounded 10) (trace_since s s').
Proof.
  rewrite run_script_unfold.
  set (s1 := with_limiter (RateLimiter_init 10 1) s).
  destruct (main_spec w max_retries company_data s1)
    as [[-> _]|(todo & s2 & _ & _ & [_ _ _ (new & T & _ & H)] & ->)];
    [simpl; lia| |]; intros [= <-].
  - rewrite (trace_since_app s _ []) by done. constructor.
  - rewrite (trace_since_app s _ new) by exact T.
    eapply Forall_impl; [exact H|].
    intros e. destruct e; try done; simpl; unfold outstanding; simpl; lia.
Qed.

(** * The claims *)

(** C1, as the code has it.  After a run that ended normally, a second
    run on the same entity list ends normally too and adds no duplicate:
    the committed accession numbers are still pairwise distinct.  When
    moreover every recognized filing the catalog lists for the entities is
    in the committed ledger after the first run, the second run makes no
    download attempt, extracts nothing, inserts nothing and leaves the
    committed ledger and the disk as they are. *)
Theorem second_run_fetches_nothing w max_retries company_data s0 s1 :
  NoDup (accessions (durable s0)) →
  run_script w max_retries company_data s0 = Ok tt s1 →
  NoDup (accessions (durable s1))
  ∧ (∀ s2, state_of (run_script w max_retries company_data s1) = Some s2 →
           NoDup (accessions (durable s2)))
  ∧ (all_ledgered w company_data (durable s1) →
     ∃ s2 new,
       run_script w max_retries company_data s1 = Ok tt s2
       ∧ trace s2 = new ++ trace s1
       ∧ archive_gets new = 0
       ∧ Forall (λ e, is_extraction e = false ∧ is_insert e = false) new
       ∧ durable s2 = durable s1
       ∧ fs s2 = fs s1).
Proof.
  intros Hnd Hrun1.
  assert (Hstate1 : state_of (run_script w max_retries company_data s0) = Some s1)
    by (by rewrite Hrun1).
  assert (Hclosed : ∀ row, row ∈ company_data →
            insert_closed (company_ticker row) (λ rows, NoDup (accessions rows)))
    by (intros; apply insert_closed_NoDup).
  destruct (run_script_ledger_invariant _ w max_retries company_data s0 s1
              Hclosed Hnd Hstate1) as [_ Hnd1].
  split; [done|]. split.
  { intros s2 Hstate2.
    by destruct (run_script_ledger_invariant _ w max_retries company_data s1 s2
                   Hclosed Hnd1 Hstate2). }
  intros Hall.
  (* the first run got past the resume query, so the second does *)
  assert (Hknown1 : last_ticker_known (company_ticker <$> company_data) (durable s1)).
  { apply (run_script_ledger_invariant
             (last_ticker_known (company_ticker <$> company_data))
             w max_retries company_data s0 s1); [| |done].
    - intros row Hrow. apply insert_closed_last_ticker.
      apply list_elem_of_fmap. eauto.
    - rewrite run_script_unfold in Hrun1.
      destruct (main_spec w max_retries company_data
                  (with_limiter (RateLimiter_init 10 1) s0))
        as [[Hraise _]|(todo & s' & Hres & _)]; [simpl; lia| |].
      + by rewrite Hraise in Hrun1.
      + by apply resume_ok_known in Hres. }
  rewrite run_script_unfold, main_unfold.
  set (s1' := with_filings _ (with_limiter _ s1)).
  destruct (resume_known_ok company_data (durable s1) s1' Hknown1)
    as (todo & Hres & Hsub).
  destruct (for_each_entity_idle w max_retries todo s1') as (s2 & Hloop & Hidle).
  { simpl. lia. }
  { done. }
  { intros row n all_forms f Hrow. apply Hall. by apply Hsub. }
  unfold bind. cbv beta.
  change (durable (with_limiter (RateLimiter_init 10 1) s1)) with (durable s1).
  rewrite Hres, Hloop.
  destruct Hidle as [A B C D (new & T & G & F)].
  eexists _, new. split; [reflexivity|]. simpl. by rewrite T, C, A.
Qed.

Lemma second_run_fetches_nothing_witness :
  NoDup (accessions (durable fresh))
  ∧ run_script world_ok 1 [xyz] fresh = Ok tt after_first_run
  ∧ all_ledgered world_ok [xyz] (durable after_first_run)
  ∧ ∃ s2 new,
      run_script world_ok 1 [xyz] after_first_run = Ok tt s2
      ∧ trace s2 = new ++ trace after_first_run
      ∧ archive_gets new = 0
      ∧ durable s2 = durable after_first_run.
Proof.
  assert (H1 : NoDup (accessions (durable fresh))) by apply NoDup_nil_2.
  assert (H2 : run_script world_ok 1 [xyz] fresh = Ok tt after_first_run)
    by (vm_compute; reflexivity).
  assert (H3 : all_ledgered world_ok [xyz] (durable after_first_run)).
  { intros row n all_forms f Hrow Hcat Hf Hform.
    apply list_elem_of_singleton in Hrow as ->.
    injection Hcat as <-.
    apply elem_of_cons in Hf as [->|Hf]; [vm_compute; left|].
    apply elem_of_cons in Hf as [->|Hf]; [vm_compute; right; left|].
    apply list_elem_of_singleton in Hf as ->.
    exfalso. vm_compute in Hform.
    repeat (apply elem_of_cons in Hform as [Hform|Hform]; [discriminate Hform|]).
    inversion Hform. }
  split; [exact H1|]. split; [exact H2|]. split; [exact H3|].
  destruct (proj2 (proj2 (second_run_fetches_nothing world_ok 1 [xyz] fresh
                            after_first_run H1 H2)) H3)
    as (s2 & new & Hrun & T & G & _ & D & _).
  exists s2, new. split; [exact Hrun|]. split; [exact T|]. split; [exact G | exact D].
Defined.

(** C1 as stated fails: the archive answers neither package request with
    a success, so the first run ledgers nothing, and the second run on the
    same entity list and catalog makes both download attempts again. *)
Lemma second_run_fetches_again :
  match download_module world_404 [xyz] fresh with
  | Ok _ s1 =>
      match download_module world_404 [xyz] s1 with
      | Ok _ s2 =>
          archive_gets (trace_since s1 s2) = 2
          ∧ durable s1 = [] ∧ durable s2 = []
      | _ => False
      end
  | _ => False
  end.
Proof. vm_compute. repeat split. Qed.

(** C2. A filing whose accession number is in the Ledger when the
    duplicate check runs is skipped: the iteration prints a diagnostic and
    returns, the loop goes on with the next filing, and the state differs
    from the one before only by that diagnostic, so nothing was requested
    from the archive and nothing was extracted or inserted. *)
Theorem dedup_prevents_fetch_and_extraction
    w max_retries ck tk path nf filing rest s :
  accessionNumber filing ∈ accessions (filings s) →
  let s' := with_event (EvPrint (MsgAlreadyDownloaded (accessionNumber filing))) s in
  process_filing w max_retries ck tk path nf filing s = Ok nf s'
  ∧ for_each_filing w max_retries ck tk path (filing :: rest) nf s
    = for_each_filing w max_retries ck tk path rest nf s'
  ∧ archive_gets (trace_since s s') = 0
  ∧ Forall (λ e, is_extraction e = false ∧ is_insert e = false) (trace_since s s')
  ∧ requests s' = requests s ∧ fs s' = fs s ∧ filings s' = filings s.
Proof.
  intros Hin s'.
  pose proof (process_filing_ledgered w max_retries ck tk path nf filing s Hin) as H.
  assert (Hsince : trace_since s s'
                   = [EvPrint (MsgAlreadyDownloaded (accessionNumber filing))])
    by (by apply trace_since_app).
  rewrite Hsince. repeat split; auto.
  simpl. unfold bind. by rewrite H.
Qed.

Lemma dedup_prevents_fetch_and_extraction_witness :
  accessionNumber filing_10k ∈ accessions (filings ledgered_10k)
  ∧ process_filing world_ok 1 "0000320193" "XYZ" "D:/Filings/XYZ" None
      filing_10k ledgered_10k
    = Ok None (with_event
                 (EvPrint (MsgAlreadyDownloaded (accessionNumber filing_10k)))
                 ledgered_10k).
Proof.
  assert (H : accessionNumber filing_10k ∈ accessions (filings ledgered_10k))
    by (simpl; left).
  split; [exact H|].
  exact (proj1 (dedup_prevents_fetch_and_extraction world_ok 1 "0000320193" "XYZ"
                  "D:/Filings/XYZ" None filing_10k [] ledgered_10k H)).
Defined.

(** C3, as the code has it.  The resume step matches on the ticker alone
    and takes the first match.  When the committed Ledger is not empty
    and the row with the highest [id] carries the ticker of [E], the
    first row of the input with that ticker, a fresh run announces and
    processes [E] and then the rows after it, in input order, and ends
    normally: when rows precede [E] in the input, the first entity
    processed is not the first of the input. *)
Theorem resume_starts_at_last_ledgered_entity
    w max_retries pre E post last s :
  last ∈ durable s →
  (∀ r, r ∈ durable s → r = last ∨ id r < id last) →
  company_ticker E = ticker last →
  (∀ row, row ∈ pre → company_ticker row ≠ ticker last) →
  ∃ s' new,
    run_script w max_retries (pre ++ E :: post) s = Ok tt s'
    ∧ trace s' = new ++ trace s
    ∧ rev (processing_of new) = announced (E :: post)
    ∧ (∀ first, head pre = Some first →
         head (rev (processing_of new)) ≠ head (announced [first])).
Proof.
  intros Hin Hmax HE Hpre.
  rewrite run_script_unfold.
  set (s1 := with_limiter (RateLimiter_init 10 1) s).
  destruct (main_spec w max_retries (pre ++ E :: post) s1) as [[_ Hres]|H];
    [simpl; lia| |].
  { exfalso. simpl in Hres.
    rewrite (order_by_id_desc_limit_1_highest last) in Hres by done.
    unfold resume in Hres. by rewrite (ticker_index_first pre E post) in Hres. }
  destruct H as (todo & s2 & Hres & _ & [_ _ _ (new & T & P & _)] & Hmain).
  simpl in Hres.
  rewrite (order_by_id_desc_limit_1_highest last) in Hres by done.
  unfold resume in Hres. rewrite (ticker_index_first pre E post) in Hres by done.
  rewrite drop_app_length in Hres. injection Hres as <-.
  eexists _, new. split; [exact Hmain|]. simpl. split; [exact T|].
  rewrite P, rev_involutive. split; [done|].
  intros first Hfirst. simpl. intros [= Heq _].
  destruct pre as [|row pre]; [done|]. injection Hfirst as ->.
  apply (Hpre first); [left|]. congruence.
Qed.

Lemma resume_starts_at_last_ledgered_entity_witness :
  row_10k ∈ durable ledgered_10k
  ∧ (∀ r, r ∈ durable ledgered_10k → r = row_10k ∨ id r < id row_10k)
  ∧ company_ticker xyz = ticker row_10k
  ∧ (∀ row, row ∈ [abc] → company_ticker row ≠ ticker row_10k)
  ∧ ∃ s' new,
      run_script world_ok 1 ([abc] ++ xyz :: []) ledgered_10k = Ok tt s'
      ∧ trace s' = new ++ trace ledgered_10k
      ∧ rev (processing_of new) = [("XYZ", "0000320193")].
Proof.
  assert (H1 : row_10k ∈ durable ledgered_10k) by (simpl; left).
  assert (H2 : ∀ r, r ∈ durable ledgered_10k → r = row_10k ∨ id r < id row_10k).
  { intros r Hr. simpl in Hr. apply list_elem_of_singleton in Hr. by left. }
  assert (H3 : company_ticker xyz = ticker row_10k) by reflexivity.
  assert (H4 : ∀ row, row ∈ [abc] → company_ticker row ≠ ticker row_10k).
  { intros row Hr. apply list_elem_of_singleton in Hr as ->. discriminate. }
  do 4 (split; [assumption|]).
  destruct (resume_starts_at_last_ledgered_entity world_ok 1 [abc] xyz []
              row_10k ledgered_10k H1 H2 H3 H4)
    as (s' & new & Hrun & T & P & _).
  exists s', new. split; [exact Hrun|]. split; [exact T | exact P].
Defined.

(** C3 as stated fails: the last row of the Ledger belongs to the third
    entity of the input (its ticker and its CIK), the first entity has the
    same ticker and another CIK, and the run starts again at the first
    entity of the input. *)
Lemma resume_restarts_at_namesake :
  order_by_id_desc_limit_1 (durable ledgered_10k) = Some row_10k
  ∧ (ticker row_10k, cik row_10k) = (company_ticker xyz, cik_str xyz)
  ∧ cik row_10k ≠ cik_str xyz_namesake
  ∧ match download_module world_ok [xyz_namesake; abc; xyz] ledgered_10k with
    | Ok _ s' =>
        rev (processing_of (trace_since ledgered_10k s'))
        = announced [xyz_namesake; abc; xyz]
    | _ => False
    end.
Proof. vm_compute. by repeat split. Qed.

(** C4. With a budget of [max_retries] attempts and an endpoint that
    fails at every attempt (a status other than 200, or a
    [RequestException]), the iteration makes exactly [max_retries] download
    attempts, all at the filing's URL, prints the failure, and returns
    normally: no exception leaves it, disk and ledger are as before, and
    the loop goes on with the next filing of the same entity. *)
Theorem retry_budget_then_filing_scoped_failure
    w max_retries ck tk path nf filing rest s :
  let acc := accessionNumber filing in
  let url := xbrl_zip_url ck acc in
  acc ∉ accessions (filings s) →
  permanently_failing w url →
  ∃ s' new,
    process_filing w max_retries ck tk path nf filing s = Ok nf s'
    ∧ trace s'
      = EvPrint (MsgFailedAfter (upper (lower (form filing))) acc max_retries)
          :: new ++ trace s
    ∧ archive_gets new = max_retries
    ∧ Forall (retry_event url) new
    ∧ requests s' = requests s + max_retries
    ∧ fs s' = fs s ∧ filings s' = filings s ∧ durable s' = durable s
    ∧ for_each_filing w max_retries ck tk path (filing :: rest) nf s
      = for_each_filing w max_retries ck tk path rest nf s'.
Proof.
  intros acc url Hacc Hfail. apply count_zero_iff in Hacc.
  destruct (download_with_retries_failing w url (upper (lower (form filing))) acc
              max_retries 0 None s Hfail)
    as (s1 & new & resp & Hrun & T & G & U & R & F & L & D).
  assert (Hbody : process_filing w max_retries ck tk path nf filing s
                  = Ok nf (with_event
                             (EvPrint (MsgFailedAfter (upper (lower (form filing)))
                                         acc max_retries)) s1)).
  { unfold process_filing. unfold bind at 1, select_count. fold acc. rewrite Hacc.
    unfold bind at 1. fold url. rewrite Hrun. simpl. by rewrite Nat.eqb_refl. }
  eexists _, new. split; [exact Hbody|]. simpl.
  rewrite T, R, F, L, D. repeat split; auto.
  unfold bind. by rewrite Hbody.
Qed.

Lemma retry_budget_then_filing_scoped_failure_witness :
  (accessionNumber filing_10k ∉ accessions (filings fresh))
  ∧ permanently_failing world_404
      (xbrl_zip_url "0000320193" (accessionNumber filing_10k))
  ∧ ∃ s' new,
      process_filing world_404 3 "0000320193" "XYZ" "D:/Filings/XYZ" None
        filing_10k fresh = Ok None s'
      ∧ trace s' = EvPrint (MsgFailedAfter "10-K" (accessionNumber filing_10k) 3)
                     :: new ++ trace fresh
      ∧ archive_gets new = 3.
Proof.
  assert (H1 : accessionNumber filing_10k ∉ accessions (filings fresh))
    by (simpl; apply not_elem_of_nil).
  assert (H2 : permanently_failing world_404
                 (xbrl_zip_url "0000320193" (accessionNumber filing_10k)))
    by (intros n; vm_compute; discriminate).
  split; [exact H1|]. split; [exact H2|].
  destruct (retry_budget_then_filing_scoped_failure world_404 3 "0000320193" "XYZ"
              "D:/Filings/XYZ" None filing_10k [] fresh H1 H2)
    as (s' & new & Hrun & T & G & _).
  exists s', new. auto.
Defined.

(** C5, as the code has it.  A downloaded package that is not a zip
    archive makes the opening of it raise [BadZipFile].  No row is
    inserted for the filing, but the exception is not handled per filing:
    it leaves the loop over the entity's filings, so the filings after it
    are not attempted and the entity's commit is skipped, and the handler
    of the loop over the entities receives it.  The package file stays on
    disk.  (A package with no member of the document extension is not
    covered here.) *)
Theorem corrupt_package_is_entity_scoped
    w max_retries ck tk path nf filing rest s k s1 (handler : exn → M unit) :
  let acc := accessionNumber filing in
  let ft := lower (form filing) in
  let zip := path </> ft </> (acc +:+ "-xbrl.zip") in
  acc ∉ accessions (filings s) →
  download_with_retries w (xbrl_zip_url ck acc) (upper ft) acc max_retries 0 None s
  = Ok (k, Some Corrupt) s1 →
  k ≠ max_retries →
  let s' := with_event (EvOpenZip zip)
              (with_event (EvPrint (MsgDownloaded (upper ft) acc))
                 (with_fs (insert zip (FPackage Corrupt)) s1)) in
  process_filing w max_retries ck tk path nf filing s = Raise BadZipFile s'
  ∧ for_each_filing w max_retries ck tk path (filing :: rest) nf s
    = Raise BadZipFile s'
  ∧ try_except
      (for_each_filing w max_retries ck tk path (filing :: rest) nf ;; commit)
      handler s
    = handler BadZipFile s'
  ∧ filings s' = filings s ∧ durable s' = durable s
  ∧ fs s' !! zip = Some (FPackage Corrupt).
Proof.
  intros acc ft zip Hacc Hrun Hk s'.
  destruct (download_with_retries_result _ _ _ _ _ _ _ _ Hrun) as (Hfs1 & Hf1 & Hd1).
  assert (Hbody : process_filing w max_retries ck tk path nf filing s
                  = Raise BadZipFile s').
  { rewrite (process_filing_downloaded w max_retries ck tk path nf filing s k
               Corrupt s1 Hacc Hrun Hk).
    fold acc ft zip. unfold bind at 1.
    rewrite (ZipFile_corrupt zip) by (simpl; apply lookup_insert_eq). done. }
  assert (Hloop : for_each_filing w max_retries ck tk path (filing :: rest) nf s
                  = Raise BadZipFile s').
  { simpl. unfold bind. by rewrite Hbody. }
  split; [done|]. split; [done|]. split.
  { unfold try_except, bind. by rewrite Hloop. }
  split; [done|]. split; [done|]. apply lookup_insert_eq.
Qed.

Lemma corrupt_package_is_entity_scoped_witness :
  (accessionNumber filing_10k ∉ accessions (filings fresh))
  ∧ download_with_retries world_corrupt_first
      (xbrl_zip_url "0000320193" (accessionNumber filing_10k))
      (upper (lower (form filing_10k))) (accessionNumber filing_10k) 1 0 None fresh
    = Ok (0, Some Corrupt) after_get_10k
  ∧ 0 ≠ 1
  ∧ for_each_filing world_corrupt_first 1 "0000320193" "XYZ" "D:/Filings/XYZ"
      [filing_10k; filing_10q] None fresh
    = Raise BadZipFile
        (with_event (EvOpenZip "D:/Filings/XYZ/10-k/0000320193-23-000106-xbrl.zip")
           (with_event (EvPrint (MsgDownloaded "10-K" "0000320193-23-000106"))
              (with_fs (insert "D:/Filings/XYZ/10-k/0000320193-23-000106-xbrl.zip"
                          (FPackage Corrupt)) after_get_10k))).
Proof.
  assert (H1 : accessionNumber filing_10k ∉ accessions (filings fresh))
    by (simpl; apply not_elem_of_nil).
  assert (H2 : download_with_retries world_corrupt_first
                 (xbrl_zip_url "0000320193" (accessionNumber filing_10k))
                 (upper (lower (form filing_10k))) (accessionNumber filing_10k)
                 1 0 None fresh
               = Ok (0, Some Corrupt) after_get_10k)
    by reflexivity.
  assert (H3 : 0 ≠ 1) by lia.
  do 3 (split; [assumption|]).
  exact (proj1 (proj2 (corrupt_package_is_entity_scoped world_corrupt_first 1
                         "0000320193" "XYZ" "D:/Filings/XYZ" None filing_10k
                         [filing_10q] fresh 0 after_get_10k (λ _, ret tt)
                         H1 H2 H3))).
Defined.

(** C5 as stated fails: the package of the first filing of XYZ is not a
    zip archive, and the loop over the filings of XYZ ends there with
    [BadZipFile]; the second filing, whose package is fine, is never
    requested. *)
Lemma corrupt_package_ends_the_entity :
  match download_and_unzip_filings world_corrupt_first 1 "0000320193" "XYZ"
          [filing_10k; filing_10q] fresh with
  | Raise BadZipFile s' =>
      archive_gets (trace s') = 1
      ∧ (EvArchiveGet (xbrl_zip_url "0000320193" (accessionNumber filing_10q))
         ∉ trace s')
      ∧ filings s' = []
  | _ => False
  end.
Proof.
  vm_compute. split; [reflexivity|]. split; [|reflexivity].
  intros H. repeat (apply elem_of_cons in H as [H|H]; [discriminate H|]).
  inversion H.
Qed.

(** The defect behind C6: the second package of XYZ is a zip archive with
    no member of the document extension.  [new_filename] still holds the
    name assigned for the first filing, so a row is inserted and committed
    for the second filing, and no file exists at its [file_path]. *)
Lemma stale_new_filename_records_missing_document :
  match download_module world_no_document_second [xyz] fresh with
  | Ok _ s' =>
      ∃ r, r ∈ durable s'
           ∧ accession_number r = accessionNumber filing_10q
           ∧ file_path r = "D:/Filings/XYZ/10-q/[10-K][2023-09-30][XYZ].xbrl"
           ∧ fs s' !! file_path r = None
           ∧ EvExtract "readme.txt" "D:/Filings/XYZ/10-q" ∉ trace s'
  | _ => False
  end.
Proof.
  vm_compute. eexists. split; [right; left|]. repeat split.
  intros H. repeat (apply elem_of_cons in H as [H|H]; [discriminate H|]).
  inversion H.
Qed.

(** C7. In every reachable state of the ledger, the table as the
    connection sees it and the committed table, every accession number
    occurs once.  This is the work of the duplicate check alone: an
    iteration leaves the table as it is or inserts one row for its filing,
    and inserts only when no row has the filing's accession number; the
    insertion itself would accept a duplicate. *)
Theorem accession_numbers_unique :
  (∀ s, reachable s →
     NoDup (accessions (filings s)) ∧ NoDup (accessions (durable s)))
  ∧ (∀ w max_retries ck tk path nf filing s s',
       state_of (process_filing w max_retries ck tk path nf filing s) = Some s' →
       filings s' = filings s
       ∨ ((accessionNumber filing ∉ accessions (filings s))
          ∧ ∃ ft rd fp,
              filings s'
              = insert_row tk ck ft rd (accessionNumber filing) fp (filings s)))
  ∧ (∀ tk ck ft rd acc fp rows,
       acc ∈ accessions rows →
       ¬ NoDup (accessions (insert_row tk ck ft rd acc fp rows))).
Proof.
  split; [exact reachable_unique|]. split.
  - intros w N ck tk path nf filing s s' Hrun.
    pose proof (process_filing_effect w N ck tk path nf filing s) as He.
    destruct (process_filing w N ck tk path nf filing s) as [a s1|e s1|];
      simpl in *; [| |done]; injection Hrun as <-; by destruct He.
  - intros tk ck ft rd acc fp rows Hin. rewrite accessions_insert_row.
    intros Hnd. apply NoDup_app in Hnd as (_ & Hdis & _).
    apply (Hdis acc Hin). left.
Qed.

Lemma accession_numbers_unique_witness :
  ∃ s', state_of (run_script world_ok 1 [xyz] fresh) = Some s'
        ∧ reachable s'
        ∧ length (durable s') = 2
        ∧ NoDup (accessions (durable s')).
Proof.
  destruct (state_of (run_script world_ok 1 [xyz] fresh)) as [s'|] eqn:E;
    [|vm_compute in E; discriminate E].
  assert (Hr : reachable s').
  { eapply reachable_run; [|exact E]. by apply reachable_fresh. }
  exists s'. split; [reflexivity|]. split; [exact Hr|]. split.
  - vm_compute in E. injection E as <-. reflexivity.
  - exact (proj2 (proj1 accession_numbers_unique s' Hr)).
Defined.

(** C8, as the code has it.  When the [try] block of an entity raises,
    the commit of that entity is skipped: the committed table is as it was
    before the entity, and the rows inserted for the entity stay pending
    on the connection.  The error is printed and the loop goes on with the
    next entity; whatever happens, the loop ends normally and has
    announced every entity it was given, in order. *)
Theorem entity_exception_skips_commit_and_run_goes_on
    w max_retries row rest s e s1 :
  let tk := company_ticker row in
  let ck := cik_str row in
  0 < semaphore (sec_rate_limiter s) →
  try_block w max_retries row (with_event (EvPrint (MsgProcessing tk ck)) s)
  = Raise e s1 →
  let s' := with_event (EvPrint (MsgErrorProcessing tk ck e)) s1 in
  process_entity w max_retries row s = Ok tt s'
  ∧ durable s' = durable s
  ∧ filings s' = filings s1
  ∧ for_each_entity w max_retries (row :: rest) s
    = for_each_entity w max_retries rest s'
  ∧ ∃ s'' new,
      for_each_entity w max_retries (row :: rest) s = Ok tt s''
      ∧ trace s'' = new ++ trace s
      ∧ rev (processing_of new) = announced (row :: rest).
Proof.
  intros tk ck Hsem Hraise s'.
  assert (Hrow : process_entity w max_retries row s = Ok tt s').
  { unfold process_entity, bind, print, emit, modify, try_except.
    fold tk ck. by rewrite Hraise. }
  split; [done|]. split.
  { apply (try_block_raise w max_retries row _ e s1) in Hraise; [|done].
    simpl. by rewrite Hraise. }
  split; [done|]. split.
  { simpl. unfold bind. by rewrite Hrow. }
  destruct (for_each_entity_spec w max_retries (row :: rest) s Hsem)
    as (s'' & Hloop & [_ _ _ (new & T & P & _)]).
  exists s'', new. split; [done|]. split; [done|].
  by rewrite P, rev_involutive.
Qed.

Lemma entity_exception_skips_commit_and_run_goes_on_witness :
  0 < semaphore (sec_rate_limiter fresh)
  ∧ try_block world_corrupt_second 1 xyz
      (with_event (EvPrint (MsgProcessing "XYZ" "0000320193")) fresh)
    = Raise BadZipFile raised_in_xyz
  ∧ process_entity world_corrupt_second 1 xyz fresh
    = Ok tt (with_event (EvPrint (MsgErrorProcessing "XYZ" "0000320193" BadZipFile))
               raised_in_xyz)
  ∧ filings raised_in_xyz = [row_10k]
  ∧ durable raised_in_xyz = [].
Proof.
  assert (H1 : 0 < semaphore (sec_rate_limiter fresh)) by (simpl; lia).
  assert (H2 : try_block world_corrupt_second 1 xyz
                 (with_event (EvPrint (MsgProcessing "XYZ" "0000320193")) fresh)
               = Raise BadZipFile raised_in_xyz)
    by (vm_compute; reflexivity).
  split; [exact H1|]. split; [exact H2|].
  destruct (entity_exception_skips_commit_and_run_goes_on world_corrupt_second 1
              xyz [] fresh BadZipFile raised_in_xyz H1 H2)
    as (Hrow & Hd & _).
  split; [exact Hrow|]. split; [vm_compute; reflexivity | exact Hd].
Defined.

(** C8 as stated fails: the second package of XYZ is not a zip archive.
    The row of the first filing was inserted, the exception skips the
    commit, and when the run is over the committed table is empty although
    the document of the first filing is on disk. *)
Lemma entity_exception_leaves_rows_uncommitted :
  match process_entity world_corrupt_second 1 xyz fresh with
  | Ok _ s' =>
      filings s' = [row_10k] ∧ durable s' = []
      ∧ head (trace s')
        = Some (EvPrint (MsgErrorProcessing "XYZ" "0000320193" BadZipFile))
  | _ => False
  end
  ∧ match download_module world_corrupt_second [xyz] fresh with
    | Ok _ s' =>
        durable s' = []
        ∧ fs s' !! file_path row_10k = Some (FData "<B/>")
    | _ => False
    end.
Proof. vm_compute. repeat split. Qed.

(** C9. A rate-limited call (the catalog lookup is the only one) that
    finds a permit free takes it, runs, and returns it whether the lookup
    returns or raises: the trace of the call is acquire, lookup, release,
    and the semaphore is back at its value.  The release happens at least
    [period] seconds after the acquisition.  During the call one more
    permit is outstanding than before, which is at most [max_calls]; with
    no permit free the call does not proceed; and over a whole run of the
    script, whose limiter has 10 permits, every acquisition and release
    records between 0 and 10 outstanding permits.  Time is the one clock
    of the state and [time.sleep] advances it by its argument. *)
Theorem limiter_releases_after_period w ck s :
  let l := sec_rate_limiter s in
  let url := filings_url ck in
  (0 < semaphore l →
   ∃ s',
     get_filings_list w ck s
     = match catalog w url (requests s) with
       | Recent all_forms =>
           Ok (filter (λ f, lower (form f) ∈ recognized_forms) all_forms) s'
       | CatalogRaises e => Raise e s'
       end
     ∧ trace s'
       = [EvRelease (clock s') (outstanding l); EvCatalogGet url;
          EvAcquire (clock s) (outstanding l + 1)%Z] ++ trace s
     ∧ semaphore (sec_rate_limiter s') = semaphore l
     ∧ (clock s + period l <= clock s')%Q
     ∧ (outstanding l + 1 ≤ Z.of_nat (max_calls l))%Z)
  ∧ (semaphore l = 0 → get_filings_list w ck s = Hang)
  ∧ (∀ max_retries company_data s1,
       state_of (run_script w max_retries company_data s) = Some s1 →
       Forall (permits_bounded 10) (trace_since s s1)).
Proof.
  intros l url. split; [|split].
  - intros Hsem.
    destruct (get_filings_list_spec w ck s Hsem)
      as (s' & Hget & _ & _ & _ & _ & S & _ & _ & T & C).
    exists s'. repeat split; auto. unfold outstanding. fold l. lia.
  - intros Hsem. unfold get_filings_list, with_sec_rate_limiter, bind,
      RateLimiter_enter. fold l. by rewrite Hsem.
  - intros max_retries company_data s1. apply run_script_permits.
Qed.

Lemma limiter_releases_after_period_witness :
  0 < semaphore (sec_rate_limiter fresh)
  ∧ ∃ s',
      get_filings_list world_ok "0000320193" fresh
      = Ok [filing_10k; filing_10q] s'
      ∧ semaphore (sec_rate_limiter s') = 10
      ∧ (clock fresh + 1 <= clock s')%Q.
Proof.
  assert (H : 0 < semaphore (sec_rate_limiter fresh)) by (simpl; lia).
  split; [exact H|].
  destruct (proj1 (limiter_releases_after_period world_ok "0000320193" fresh) H)
    as (s' & Hget & _ & S & C & _).
  exists s'. split; [exact Hget|]. split; [exact S | exact C].
Defined.

(** C10. When a filing is processed to the end and its package has two
    or more members with the document extension, all of them with plain
    names (so that each is extracted where the script then looks for it),
    every one of them is renamed to the one name made of form type, report
    date and ticker, in archive order; afterwards that path holds the data
    of the last such member, nothing is left where the members were
    extracted, the package is gone, every other path is as before, and
    the one row inserted for the filing has that path as its
    [file_path]. *)
Theorem several_documents_leave_one_file
    w max_retries ck tk path nf filing s k members s1 rd :
  let acc := accessionNumber filing in
  let ft := lower (form filing) in
  let dir := path </> ft in
  let name := xbrl_name ft rd tk in
  let zip := dir </> (acc +:+ "-xbrl.zip") in
  let taken := xml_files (namelist members) in
  acc ∉ accessions (filings s) →
  download_with_retries w (xbrl_zip_url ck acc) (upper ft) acc max_retries 0 None s
  = Ok (k, Some (Archive members)) s1 →
  k ≠ max_retries →
  to_datetime_strftime w (reportDate filing) = Some rd →
  2 ≤ length taken →
  Forall (λ f, plain_name f = true) taken →
  ∃ s' new f_last d_last,
    process_filing w max_retries ck tk path nf filing s = Ok (Some name) s'
    ∧ last taken = Some f_last
    ∧ getinfo members f_last = Some d_last
    ∧ trace s' = new ++ trace s1
    ∧ renames_of new = rev ((λ f, (dir </> f, dir </> name)) <$> taken)
    ∧ fs s' !! (dir </> name) = Some (FData d_last)
    ∧ (∀ f, f ∈ taken → fs s' !! (dir </> f) = None)
    ∧ fs s' !! zip = None
    ∧ (∀ p, p ≠ dir </> name → p ∉ path_join dir <$> taken → p ≠ zip →
            fs s' !! p = fs s !! p)
    ∧ filings s' = insert_row tk ck ft rd acc (dir </> name) (filings s)
    ∧ file_path <$> last (filings s') = Some (dir </> name).
Proof.
  intros acc ft dir name zip taken Hacc Hrun Hk Hdate Htwo Hplain.
  assert (Htaken : taken ≠ []) by (intros E; rewrite E in Htwo; simpl in Htwo; lia).
  destruct (process_filing_extracted w max_retries ck tk path nf filing s k
              members s1 rd Hacc Hrun Hk Hdate Htaken Hplain)
    as (s' & new & Hbody & Hfs & T & R & F & _).
  fold acc ft dir name zip taken in Hbody, Hfs, T, R, F.
  destruct (last taken) as [f_last|] eqn:Elast; [|by apply last_None in Elast].
  assert (Hin : f_last ∈ namelist members).
  { apply last_Some_elem_of in Elast. by apply list_elem_of_filter in Elast as [_ ?]. }
  destruct (getinfo_namelist members f_last Hin) as [d_last Hd].
  assert (Hzip_dest : zip ≠ dir </> name).
  { intros H. apply path_join_inj in H. symmetry in H.
    by apply xbrl_name_not_zip in H. }
  assert (Hsrc_dest : ∀ f, f ∈ taken → dir </> f ≠ dir </> name).
  { intros f Hf H. apply path_join_inj in H.
    apply list_elem_of_filter in Hf as [Hf _]. by apply xml_not_xbrl_name in H. }
  assert (Hsrc_zip : ∀ f, f ∈ taken → dir </> f ≠ zip).
  { intros f Hf H. apply path_join_inj in H.
    apply list_elem_of_filter in Hf as [Hf _]. by apply xml_not_zip in H. }
  exists s', new, f_last, d_last.
  split; [done|]. split; [done|]. split; [done|]. split; [done|]. split; [done|].
  unfold extracted_lookup in Hfs. fold taken in Hfs. rewrite Elast in Hfs.
  split; [|split; [|split; [|split; [|split]]]].
  - rewrite Hfs. rewrite decide_False by done. rewrite decide_True by done.
    by rewrite Hd.
  - intros f Hf. rewrite Hfs. rewrite decide_False by (by apply Hsrc_zip).
    rewrite decide_False by (by apply Hsrc_dest).
    rewrite decide_True; [done|]. apply list_elem_of_fmap. eauto.
  - rewrite Hfs. by rewrite decide_True.
  - intros p Hp1 Hp2 Hp3. rewrite Hfs. by rewrite !decide_False.
  - done.
  - rewrite F. unfold insert_row. by rewrite last_snoc.
Qed.

Lemma several_documents_leave_one_file_witness :
  (accessionNumber filing_10k ∉ accessions (filings fresh))
  ∧ download_with_retries world_ok
      (xbrl_zip_url "0000320193" (accessionNumber filing_10k))
      (upper (lower (form filing_10k))) (accessionNumber filing_10k) 1 0 None fresh
    = Ok (0, Some package_two_documents) after_get_10k
  ∧ 0 ≠ 1
  ∧ to_datetime_strftime world_ok (reportDate filing_10k) = Some "2023-09-30"
  ∧ 2 ≤ length (xml_files ["a.xml"; "readme.txt"; "B.XML"])
  ∧ Forall (λ f, plain_name f = true) (xml_files ["a.xml"; "readme.txt"; "B.XML"])
  ∧ ∃ s',
      process_filing world_ok 1 "0000320193" "XYZ" "D:/Filings/XYZ" None
        filing_10k fresh
      = Ok (Some "[10-K][2023-09-30][XYZ].xbrl") s'
      ∧ fs s' !! "D:/Filings/XYZ/10-k/[10-K][2023-09-30][XYZ].xbrl"
        = Some (FData "<B/>")
      ∧ fs s' !! "D:/Filings/XYZ/10-k/a.xml" = None.
Proof.
  assert (H1 : accessionNumber filing_10k ∉ accessions (filings fresh))
    by (simpl; apply not_elem_of_nil).
  assert (H2 : download_with_retries world_ok
                 (xbrl_zip_url "0000320193" (accessionNumber filing_10k))
                 (upper (lower (form filing_10k))) (accessionNumber filing_10k)
                 1 0 None fresh
               = Ok (0, Some package_two_documents) after_get_10k)
    by reflexivity.
  assert (H3 : 0 ≠ 1) by lia.
  assert (H4 : to_datetime_strftime world_ok (reportDate filing_10k)
               = Some "2023-09-30") by reflexivity.
  assert (H5 : 2 ≤ length (xml_files ["a.xml"; "readme.txt"; "B.XML"]))
    by (vm_compute; lia).
  assert (H6 : Forall (λ f, plain_name f = true)
                 (xml_files ["a.xml"; "readme.txt"; "B.XML"]))
    by (vm_compute; by repeat constructor).
  do 6 (split; [assumption|]).
  destruct (several_documents_leave_one_file world_ok 1 "0000320193" "XYZ"
              "D:/Filings/XYZ" None filing_10k fresh 0
              [("a.xml", "<A/>"); ("readme.txt", "notes"); ("B.XML", "<B/>")]
              after_get_10k "2023-09-30" H1 H2 H3 H4 H5 H6)
    as (s' & new & f_last & d_last & Hbody & Hlast & Hd & _ & _ & Hdest & Hsrc & _).
  exists s'. split; [exact Hbody|].
  vm_compute in Hlast. injection Hlast as <-.
  vm_compute in Hd. injection Hd as <-.
  split; [exact Hdest|]. apply (Hsrc "a.xml"). vm_compute. left.
Defined.

(** Outside that condition: a document listed as [../a.xml] is extracted
    to [a.xml] in the form directory, the script renames the path
    [../a.xml] of that directory, and [os.rename] raises; no row is
    inserted, and the package and the extracted member stay on disk. *)
Lemma misplaced_member_raises :
  match process_filing world_misplaced 1 "0000320193" "XYZ" "D:/Filings/XYZ"
          None filing_10k fresh with
  | Raise e s' =>
      e = FileNotFoundError
      ∧ filings s' = []
      ∧ fs s' !! "D:/Filings/XYZ/10-k/a.xml" = Some (FData "<A/>")
      ∧ fs s' !! "D:/Filings/XYZ/10-k/0000320193-23-000106-xbrl.zip"
        = Some (FPackage package_misplaced_document)
      ∧ fs s' !! "D:/Filings/XYZ/10-k/[10-K][2023-09-30][XYZ].xbrl" = None
  | _ => False
  end.
Proof. vm_compute. by repeat split. Qed.

(** * Further properties of the pipeline *)

(** ** The resume query against the entity list *)

Lemma ticker_index_missing company_data t :
  (∀ row, row ∈ company_data → company_ticker row ≠ t) →
  ticker_index company_data t = None.
Proof.
  intros Hall. unfold ticker_index.
  destruct (list_find _ company_data) as [[i row]|] eqn:E; [|done].
  apply list_find_Some in E as (Hi & Ht & _).
  apply list_elem_of_lookup_2 in Hi. by destruct (Hall row Hi).
Qed.

(** X1. When the row with the highest [id] carries a ticker that no row
    of the entity list has, the run ends with [IndexError] before the loop
    over the entities: nothing is announced, requested, written or
    inserted; the state is the one before with the limiter created and the
    connection opened. *)
Theorem resume_ticker_missing_raises w max_retries company_data s last :
  order_by_id_desc_limit_1 (durable s) = Some last →
  (∀ row, row ∈ company_data → company_ticker row ≠ ticker last) →
  run_script w max_retries company_data s
  = Raise IndexError
      (with_filings (λ _, durable s) (with_limiter (RateLimiter_init 10 1) s)).
Proof.
  intros Hlast Hall. rewrite run_script_unfold, main_unfold.
  unfold bind. cbv beta.
  change (durable (with_limiter (RateLimiter_init 10 1) s)) with (durable s).
  rewrite Hlast. unfold resume. by rewrite (ticker_index_missing _ _ Hall).
Qed.

Lemma resume_ticker_missing_raises_witness :
  order_by_id_desc_limit_1 (durable ledgered_10k) = Some row_10k
  ∧ (∀ row, row ∈ [abc] → company_ticker row ≠ ticker row_10k)
  ∧ run_script world_ok 1 [abc] ledgered_10k
    = Raise IndexError
        (with_filings (λ _, durable ledgered_10k)
           (with_limiter (RateLimiter_init 10 1) ledgered_10k)).
Proof.
  assert (H1 : order_by_id_desc_limit_1 (durable ledgered_10k) = Some row_10k)
    by reflexivity.
  assert (H2 : ∀ row, row ∈ [abc] → company_ticker row ≠ ticker row_10k).
  { intros row Hr. apply list_elem_of_singleton in Hr as ->. discriminate. }
  split; [exact H1|]. split; [exact H2|].
  exact (resume_ticker_missing_raises world_ok 1 [abc] ledgered_10k row_10k H1 H2).
Defined.

(** ** A catalog lookup that fails *)

(** X2. When the catalog lookup of an entity raises, the entity is given
    up and nothing else happens to it: the permit is returned, the error
    is printed, one request was made, disk and ledger are as before, no
    commit took place, and the loop goes on with the next entity. *)
Theorem catalog_failure_skips_entity w max_retries row rest s e :
  let tk := company_ticker row in
  let ck := cik_str row in
  let l := sec_rate_limiter s in
  0 < semaphore l →
  catalog w (filings_url ck) (requests s) = CatalogRaises e →
  ∃ s',
    process_entity w max_retries row s = Ok tt s'
    ∧ trace s'
      = [EvPrint (MsgErrorProcessing tk ck e);
         EvRelease (clock s') (outstanding l);
         EvCatalogGet (filings_url ck);
         EvAcquire (clock s) (outstanding l + 1)%Z;
         EvPrint (MsgProcessing tk ck)] ++ trace s
    ∧ fs s' = fs s ∧ filings s' = filings s ∧ durable s' = durable s
    ∧ requests s' = S (requests s)
    ∧ semaphore (sec_rate_limiter s') = semaphore l
    ∧ for_each_entity w max_retries (row :: rest) s
      = for_each_entity w max_retries rest s'.
Proof.
  intros tk ck l Hsem Hcat.
  set (s0 := with_event (EvPrint (MsgProcessing tk ck)) s).
  destruct (get_filings_list_spec w ck s0 Hsem)
    as (s1 & Hget & A & F & D & R & S & _ & _ & T & _).
  change (requests s0) with (requests s) in Hget. rewrite Hcat in Hget.
  assert (Hrow : process_entity w max_retries row s
                 = Ok tt (with_event (EvPrint (MsgErrorProcessing tk ck e)) s1)).
  { unfold process_entity, bind, print, emit, modify, try_except, try_block.
    fold tk ck s0. unfold bind. by rewrite Hget. }
  eexists. split; [exact Hrow|]. simpl.
  rewrite T, A, F, D, R, S. repeat split; auto.
  unfold bind. by rewrite Hrow.
Qed.

Lemma catalog_failure_skips_entity_witness :
  0 < semaphore (sec_rate_limiter fresh)
  ∧ catalog world_ok (filings_url (cik_str abc)) (requests fresh)
    = CatalogRaises KeyError
  ∧ ∃ s',
      process_entity world_ok 1 abc fresh = Ok tt s'
      ∧ fs s' = fs fresh ∧ filings s' = filings fresh
      ∧ requests s' = 1.
Proof.
  assert (H1 : 0 < semaphore (sec_rate_limiter fresh)) by (simpl; lia).
  assert (H2 : catalog world_ok (filings_url (cik_str abc)) (requests fresh)
               = CatalogRaises KeyError) by reflexivity.
  split; [exact H1|]. split; [exact H2|].
  destruct (catalog_failure_skips_entity world_ok 1 abc [] fresh KeyError H1 H2)
    as (s' & Hrow & _ & A & F & _ & R & _).
  exists s'. split; [exact Hrow|]. split; [exact A|]. split; [exact F | exact R].
Defined.

(** ** A download that succeeds after failures *)

Lemma download_with_retries_succeeds w url FORM acc k content :
  ∀ remaining retries response s,
    k < remaining →
    (∀ i, i < k → attempt_fails (archive w url (requests s + i))) →
    archive w url (requests s + k) = Response 200 content →
    ∃ s' new,
      download_with_retries w url FORM acc remaining retries response s
      = Ok (retries + k, Some content) s'
      ∧ trace s' = new ++ trace s
      ∧ archive_gets new = S k
      ∧ Forall (retry_event url) new
      ∧ requests s' = requests s + S k
      ∧ fs s' = fs s ∧ filings s' = filings s ∧ durable s' = durable s.
Proof.
  induction k as [|k IH]; intros remaining retries response s Hlt Hfail Hok;
    (destruct remaining as [|remaining]; [lia|]); simpl.
  - rewrite Nat.add_0_r in Hok.
    unfold bind at 1, requests_get. rewrite Hok. simpl.
    eexists _, [EvArchiveGet url]. rewrite !Nat.add_0_r.
    split; [reflexivity|]. simpl. repeat split; auto; try lia.
    by repeat constructor.
  - unfold bind at 1, requests_get.
    pose proof (Hfail 0 ltac:(lia)) as H0. rewrite Nat.add_0_r in H0.
    assert (Hstep : ∀ m response1,
      ∃ s' new,
        (print m ;; time_sleep (1 # 20) ;;
         download_with_retries w url FORM acc remaining (S retries) response1)
          (with_event (EvArchiveGet url)
             (with_clock (clock s + latency w (requests s))%Q
                (with_requests (S (requests s)) s)))
        = Ok (retries + S k, Some content) s'
        ∧ trace s' = new ++ trace s
        ∧ archive_gets new = S (S k)
        ∧ Forall (retry_event url) new
        ∧ requests s' = requests s + S (S k)
        ∧ fs s' = fs s ∧ filings s' = filings s ∧ durable s' = durable s).
    { intros m response1. unfold bind, print, emit, time_sleep, modify.
      match goal with |- context [download_with_retries _ _ _ _ _ _ _ ?st] =>
        destruct (IH remaining (S retries) response1 st)
          as (s' & new & Hrun & T & G & U & R & F & L & D)
      end.
      { lia. }
      { intros i Hi. cbn [requests with_event with_clock with_requests].
        replace (S (requests s) + i) with (requests s + S i) by lia.
        apply Hfail. lia. }
      { cbn [requests with_event with_clock with_requests].
        by replace (S (requests s) + k) with (requests s + S k) by lia. }
      exists s', (new ++ [EvPrint m; EvArchiveGet url]).
      rewrite Hrun, T, R, F, L, D, <- app_assoc, archive_gets_app, G.
      replace (S retries + k) with (retries + S k) by lia.
      repeat split; auto; try (simpl; lia).
      apply Forall_app. split; [done|]. by repeat constructor. }
    destruct (archive w url (requests s)) as [status_code content0|e];
      simpl in H0.
    + apply Z.eqb_neq in H0. rewrite H0. apply Hstep.
    + subst e. apply Hstep.
Qed.

(** X3. With a budget of [max_retries] attempts, when the first [k]
    attempts for a package fail (a status other than 200 or a
    [RequestException]) and attempt [k + 1] is within the budget and
    answered with 200, the retry loop makes exactly [k + 1] attempts, all
    at that URL, leaves with [retries = k], which is not the budget, and
    with the content of the successful response; disk and ledger are
    untouched by the loop. *)
Theorem download_succeeds_after_failures w max_retries url FORM acc k content s :
  k < max_retries →
  (∀ i, i < k → attempt_fails (archive w url (requests s + i))) →
  archive w url (requests s + k) = Response 200 content →
  ∃ s' new,
    download_with_retries w url FORM acc max_retries 0 None s
    = Ok (k, Some content) s'
    ∧ k ≠ max_retries
    ∧ trace s' = new ++ trace s
    ∧ archive_gets new = S k
    ∧ Forall (retry_event url) new
    ∧ requests s' = requests s + S k
    ∧ fs s' = fs s ∧ filings s' = filings s ∧ durable s' = durable s.
Proof.
  intros Hlt Hfail Hok.
  destruct (download_with_retries_succeeds w url FORM acc k content
              max_retries 0 None s Hlt Hfail Hok)
    as (s' & new & Hrun & H).
  exists s', new. split; [exact Hrun|]. split; [lia | exact H].
Qed.

Lemma download_succeeds_after_failures_witness :
  1 < 2
  ∧ (∀ i, i < 1 →
       attempt_fails (archive world_flaky "u" (requests fresh + i)))
  ∧ archive world_flaky "u" (requests fresh + 1)
    = Response 200 package_two_documents
  ∧ ∃ s' new,
      download_with_retries world_flaky "u" "10-K" "a" 2 0 None fresh
      = Ok (1, Some package_two_documents) s'
      ∧ trace s' = new ++ trace fresh
      ∧ archive_gets new = 2.
Proof.
  assert (H1 : 1 < 2) by lia.
  assert (H2 : ∀ i, i < 1 →
                 attempt_fails (archive world_flaky "u" (requests fresh + i))).
  { intros i Hi. assert (i = 0) as -> by lia. simpl. discriminate. }
  assert (H3 : archive world_flaky "u" (requests fresh + 1)
               = Response 200 package_two_documents) by reflexivity.
  split; [exact H1|]. split; [exact H2|]. split; [exact H3|].
  destruct (download_succeeds_after_failures world_flaky 2 "u" "10-K" "a" 1
              package_two_documents fresh H1 H2 H3)
    as (s' & new & Hrun & _ & T & G & _).
  exists s', new. split; [exact Hrun|]. split; [exact T | exact G].
Defined.

(** ** The table only grows *)

Lemma insert_closed_prefix tk rows0 : insert_closed tk (λ rows, rows0 `prefix_of` rows).
Proof.
  intros rows ck ft rd acc fp Hpre _. unfold insert_row.
  by apply prefix_app_r.
Qed.

(** X4. The script only inserts: whatever way a run ends, the committed
    table it leaves starts with the committed table it found, row for
    row. *)
Theorem committed_rows_are_kept w max_retries company_data s s' :
  state_of (run_script w max_retries company_data s) = Some s' →
  durable s `prefix_of` durable s'.
Proof.
  intros Hrun.
  eapply (run_script_ledger_invariant (λ rows, durable s `prefix_of` rows));
    [|reflexivity|exact Hrun].
  intros row _. apply insert_closed_prefix.
Qed.

Lemma committed_rows_are_kept_witness :
  ∃ s', state_of (run_script world_ok 1 [xyz] ledgered_10k) = Some s'
        ∧ durable s' = [row_10k;
                        {| id := 2; ticker := "XYZ"; cik := "0000320193";
                           form_type := "10-q"; report_date := "2023-07-01";
                           accession_number := "0000320193-23-000077";
                           file_path := "D:/Filings/XYZ/10-q/[10-Q][2023-07-01][XYZ].xbrl" |}]
        ∧ durable ledgered_10k `prefix_of` durable s'.
Proof.
  destruct (state_of (run_script world_ok 1 [xyz] ledgered_10k)) as [s'|] eqn:E;
    [|vm_compute in E; discriminate E].
  exists s'. split; [reflexivity|]. split.
  - vm_compute in E. injection E as <-. reflexivity.
  - exact (committed_rows_are_kept world_ok 1 [xyz] ledgered_10k s' E).
Defined.

(** ** Keys and the resume query *)

Lemma insert_closed_ids tk : insert_closed tk ids_increasing.
Proof.
  intros rows ck ft rd acc fp Hinc _ i j ri rj Hij Hi Hj.
  unfold insert_row in *.
  assert (Hjlen : j < length (rows ++ [{| id := next_id rows; ticker := tk;
             cik := ck; form_type := ft; report_date := rd;
             accession_number := acc; file_path := fp |}]))
    by (by apply lookup_lt_Some in Hj).
  rewrite length_app in Hjlen. simpl in Hjlen.
  rewrite lookup_app_l in Hi by lia.
  destruct (decide (j < length rows)) as [Hj'|Hj'].
  - rewrite lookup_app_l in Hj by done. by apply (Hinc i j).
  - rewrite lookup_app_r in Hj by lia.
    replace (j - length rows) with 0 in Hj by lia. injection Hj as <-. simpl.
    apply id_lt_next_id. by apply list_elem_of_lookup_2 in Hi.
Qed.

(** With growing [id]s the resume query finds the last row. *)
Lemma order_by_id_is_last rows :
  ids_increasing rows → order_by_id_desc_limit_1 rows = last rows.
Proof.
  intros Hinc. destruct (last rows) as [l|] eqn:El.
  - apply order_by_id_desc_limit_1_highest.
    + by apply last_Some_elem_of.
    + intros r Hr. apply list_elem_of_lookup in Hr as [i Hi].
      rewrite last_lookup in El.
      assert (Hlen : i < length rows) by (by apply lookup_lt_Some in Hi).
      destruct (decide (i = pred (length rows))) as [->|Hne].
      * left. congruence.
      * right. apply (Hinc i (pred (length rows))); [lia|done|done].
  - apply last_None in El as ->. reflexivity.
Qed.

Lemma reachable_invariant (P : list LedgerRecord → Prop) :
  (∀ tk, insert_closed tk P) → P [] →
  ∀ s, reachable s → P (filings s) ∧ P (durable s).
Proof.
  intros Hclosed Hnil s.
  induction 1 as [s F D|w N cd s s' _ [IHf IHd] Hrun|s s' _ [IHf IHd] Hrun
                  |w N ck tk path nf filing s s' _ [IHf IHd] Hrun
                  |s s' _ [IHf IHd] Hrun|s s' _ [IHf IHd] Hrun
                  |s s' _ [IHf IHd] F D].
  - by rewrite F, D.
  - eapply (run_script_ledger_invariant P); eauto.
  - injection Hrun as <-. by simpl.
  - pose proof (process_filing_effect w N ck tk path nf filing s) as He.
    destruct (process_filing w N ck tk path nf filing s) as [a s1|e s1|];
      simpl in *; [| |done]; injection Hrun as <-;
      apply filing_frame_frame in He as [F D _ _];
      (split; [by apply (F _ (Hclosed tk)) | by rewrite D]).
  - injection Hrun as <-. by simpl.
  - injection Hrun as <-. by simpl.
  - by rewrite F, D.
Qed.

(** X5. In every reachable state of the ledger the [id]s grow along the
    table, so that no two rows share one and the row the resume query
    selects, the one with the highest [id], is the row inserted last: the
    last row of the table. *)
Theorem resume_query_finds_last_inserted s :
  reachable s →
  ids_increasing (durable s)
  ∧ NoDup (id <$> durable s)
  ∧ order_by_id_desc_limit_1 (durable s) = last (durable s)
  ∧ order_by_id_desc_limit_1 (filings s) = last (filings s).
Proof.
  intros Hr.
  destruct (reachable_invariant ids_increasing insert_closed_ids) with (s := s)
    as [Hf Hd]; [by intros i j ri rj _ Hi|done|].
  split; [done|]. split; [|split; by apply order_by_id_is_last].
  apply NoDup_alt. intros i j x Hi Hj.
  apply list_lookup_fmap_Some in Hi as (ri & -> & Hi).
  apply list_lookup_fmap_Some in Hj as (rj & Heq & Hj).
  destruct (Nat.lt_trichotomy i j) as [Hlt|[->|Hlt]]; [|done|].
  - pose proof (Hd i j ri rj Hlt Hi Hj). lia.
  - pose proof (Hd j i rj ri Hlt Hj Hi). lia.
Qed.

Lemma resume_query_finds_last_inserted_witness :
  ∃ s', state_of (run_script world_ok 1 [xyz] fresh) = Some s'
        ∧ reachable s'
        ∧ order_by_id_desc_limit_1 (durable s') = last (durable s')
        ∧ accession_number <$> last (durable s') = Some "0000320193-23-000077".
Proof.
  destruct (state_of (run_script world_ok 1 [xyz] fresh)) as [s'|] eqn:E;
    [|vm_compute in E; discriminate E].
  assert (Hr : reachable s').
  { eapply reachable_run; [|exact E]. by apply reachable_fresh. }
  exists s'. split; [reflexivity|]. split; [exact Hr|]. split.
  - exact (proj1 (proj2 (proj2 (resume_query_finds_last_inserted s' Hr)))).
  - vm_compute in E. injection E as <-. reflexivity.
Defined.

(** ** A package without a document *)

(** X6. A downloaded package that is a zip archive with no member of the
    document extension is deleted again and nothing is extracted from it.
    What follows depends on [new_filename]: when no earlier filing of the
    call assigned it, the insertion raises [UnboundLocalError] and no row
    is written; when an earlier filing did, a row is inserted for this
    filing whose [file_path] is made of this filing's form directory and
    the earlier filing's name. *)
Theorem package_without_document
    w max_retries ck tk path nf filing s k members s1 rd :
  let acc := accessionNumber filing in
  let ft := lower (form filing) in
  let dir := path </> ft in
  let zip := dir </> (acc +:+ "-xbrl.zip") in
  acc ∉ accessions (filings s) →
  download_with_retries w (xbrl_zip_url ck acc) (upper ft) acc max_retries 0 None s
  = Ok (k, Some (Archive members)) s1 →
  k ≠ max_retries →
  to_datetime_strftime w (reportDate filing) = Some rd →
  xml_files (namelist members) = [] →
  ∃ s' new,
    process_filing w max_retries ck tk path nf filing s
    = match nf with
      | None => Raise UnboundLocalError s'
      | Some stale => Ok (Some stale) s'
      end
    ∧ filings s'
      = match nf with
        | None => filings s
        | Some stale => insert_row tk ck ft rd acc (dir </> stale) (filings s)
        end
    ∧ durable s' = durable s
    ∧ (∀ p, fs s' !! p = if decide (p = zip) then None else fs s !! p)
    ∧ trace s' = new ++ trace s1
    ∧ renames_of new = [].
Proof.
  intros acc ft dir zip Hacc Hrun Hk Hdate Hnone.
  rewrite (process_filing_downloaded w max_retries ck tk path nf filing s k
             (Archive members) s1 Hacc Hrun Hk).
  fold acc ft dir zip.
  destruct (download_with_retries_result _ _ _ _ _ _ _ _ Hrun) as (Hfs1 & Hf1 & Hd1).
  set (s2 := with_event _ (with_fs _ s1)).
  unfold bind at 1. rewrite (ZipFile_archive zip members s2)
    by (simpl; apply lookup_insert_eq).
  rewrite Hdate.
  destruct (extract_members_spec members dir (xbrl_name ft rd tk)
              (namelist members) nf (with_event (EvOpenZip zip) s2))
    as (s3 & new & Hext & Hfs3 & T3 & R3).
  { intros f. apply getinfo_namelist. }
  { intros f Hf. apply list_elem_of_filter in Hf as [Hf _].
    by apply xml_not_xbrl_name. }
  { rewrite Hnone. constructor. }
  pose proof (steps_extract_members members dir (xbrl_name ft rd tk)
                (namelist members) nf (with_event (EvOpenZip zip) s2)) as Hq.
  rewrite Hext in Hq. destruct Hq as [Fq Dq _ _].
  cbn [filings durable with_event with_fs s2] in Fq, Dq.
  rewrite Hnone in Hext, R3. unfold extracted_lookup in Hfs3.
  rewrite Hnone in Hfs3. cbn [last] in Hfs3.
  cbn [fs with_fs with_event s2] in Hfs3.
  unfold bind at 1. rewrite Hext.
  assert (Hzip3 : fs s3 !! zip = Some (FPackage (Archive members)))
    by (rewrite Hfs3; apply lookup_insert_eq).
  unfold bind at 1. rewrite (os_remove_present _ _ _ Hzip3).
  assert (Hdisk : ∀ p, delete zip (fs s3) !! p
                       = if decide (p = zip) then None else fs s !! p).
  { intros p. case_decide as Hp; [subst; apply lookup_delete_eq|].
    by rewrite lookup_delete_ne, Hfs3, lookup_insert_ne, Hfs1. }
  destruct nf as [stale|].
  - unfold bind, insert_filing, ret.
    eexists _, (EvInsert _ :: new ++ [EvOpenZip zip;
                                      EvPrint (MsgDownloaded (upper ft) acc)]).
    split; [reflexivity|].
    cbn [fs filings durable trace with_fs with_event with_filings].
    split; [by rewrite Fq, Hf1|]. split; [by rewrite Dq|]. split; [exact Hdisk|].
    split.
    + rewrite T3. cbn [trace with_event with_fs s2 app]. f_equal.
      by rewrite <- app_assoc.
    + match goal with |- renames_of (?e :: ?l) = _ =>
        change (renames_of (e :: l)) with (renames_of l)
      end.
      by rewrite renames_of_app, R3.
  - unfold raise.
    eexists _, (new ++ [EvOpenZip zip; EvPrint (MsgDownloaded (upper ft) acc)]).
    split; [reflexivity|].
    cbn [fs filings durable trace with_fs with_event with_filings].
    split; [by rewrite Fq, Hf1|]. split; [by rewrite Dq|]. split; [exact Hdisk|].
    split.
    + rewrite T3. cbn [trace with_event with_fs s2]. by rewrite <- app_assoc.
    + by rewrite renames_of_app, R3.
Qed.

Lemma package_without_document_witness :
  (accessionNumber filing_10k ∉ accessions (filings fresh))
  ∧ download_with_retries world_no_document_first
      (xbrl_zip_url "0000320193" (accessionNumber filing_10k))
      (upper (lower (form filing_10k))) (accessionNumber filing_10k) 1 0 None fresh
    = Ok (0, Some package_no_document) after_get_10k
  ∧ 0 ≠ 1
  ∧ to_datetime_strftime world_no_document_first (reportDate filing_10k)
    = Some "2023-09-30"
  ∧ xml_files (namelist [("readme.txt", "notes")]) = []
  ∧ ∃ s',
      process_filing world_no_document_first 1 "0000320193" "XYZ"
        "D:/Filings/XYZ" None filing_10k fresh
      = Raise UnboundLocalError s'
      ∧ filings s' = []
      ∧ fs s' !! "D:/Filings/XYZ/10-k/0000320193-23-000106-xbrl.zip" = None.
Proof.
  assert (H1 : accessionNumber filing_10k ∉ accessions (filings fresh))
    by (simpl; apply not_elem_of_nil).
  assert (H2 : download_with_retries world_no_document_first
                 (xbrl_zip_url "0000320193" (accessionNumber filing_10k))
                 (upper (lower (form filing_10k))) (accessionNumber filing_10k)
                 1 0 None fresh
               = Ok (0, Some package_no_document) after_get_10k)
    by reflexivity.
  assert (H3 : 0 ≠ 1) by lia.
  assert (H4 : to_datetime_strftime world_no_document_first (reportDate filing_10k)
               = Some "2023-09-30") by reflexivity.
  assert (H5 : xml_files (namelist [("readme.txt", "notes")]) = [])
    by (vm_compute; reflexivity).
  do 5 (split; [assumption|]).
  destruct (package_without_document world_no_document_first 1 "0000320193" "XYZ"
              "D:/Filings/XYZ" None filing_10k fresh 0
              [("readme.txt", "notes")] after_get_10k "2023-09-30"
              H1 H2 H3 H4 H5)
    as (s' & new & Hbody & F & _ & Hdisk & _).
  exists s'. split; [exact Hbody|]. split; [exact F|].
  rewrite Hdisk. reflexivity.
Defined.

(** ** Package addresses *)

Lemma append_cancel_r (a b s : string) : a +:+ s = b +:+ s → a = b.
Proof.
  revert b. induction a as [|x a IH]; intros b H.
  - rewrite append_nil in H. apply (f_equal String.length) in H.
    rewrite append_length in H. destruct b; [done | simpl in H; lia].
  - destruct b as [|y b].
    + rewrite append_nil in H. apply (f_equal String.length) in H.
      rewrite append_length in H. simpl in H. lia.
    + rewrite !append_cons in H. injection H as -> H. f_equal. by apply IH.
Qed.

Lemma has_char_remove_hyphens c s :
  has_char c s = false → has_char c (remove_hyphens s) = false.
Proof.
  induction s as [|x s IH]; simpl; [done|].
  destruct (Ascii.eqb x c) eqn:Exc; [done|]. intros H.
  destruct (Ascii.eqb x "-"); [by apply IH|]. simpl. rewrite Exc. by apply IH.
Qed.

(** A string is cut in one way only at the first occurrence of a
    character. *)
Lemma split_at_first c u1 v1 u2 v2 :
  has_char c u1 = false → has_char c u2 = false →
  u1 +:+ String c v1 = u2 +:+ String c v2 → u1 = u2 ∧ v1 = v2.
Proof.
  revert u2. induction u1 as [|x u1 IH]; intros u2 H1 H2 H.
  - destruct u2 as [|y u2].
    + rewrite !append_nil in H. by injection H as ->.
    + rewrite append_nil, append_cons in H. injection H as <- _.
      simpl in H2. by rewrite Ascii.eqb_refl in H2.
  - simpl in H1. destruct (Ascii.eqb x c) eqn:Exc; [done|].
    destruct u2 as [|y u2].
    + rewrite append_nil, append_cons in H. injection H as -> _.
      by rewrite Ascii.eqb_refl in Exc.
    + rewrite !append_cons in H. injection H as -> H.
      simpl in H2. rewrite Exc in H2.
      destruct (IH u2 H1 H2 H) as [-> ->]. done.
Qed.

(** X7. Two filings of one entity whose accession numbers differ (and hold
    no [/]) are requested from different URLs, and their packages are
    written to different paths of a form directory. *)
Theorem distinct_filings_distinct_packages ck dir a b :
  has_char "/" a = false → has_char "/" b = false →
  a ≠ b →
  xbrl_zip_url ck a ≠ xbrl_zip_url ck b
  ∧ dir </> (a +:+ "-xbrl.zip") ≠ dir </> (b +:+ "-xbrl.zip").
Proof.
  intros Ha Hb Hne. split; intros H; apply Hne.
  - unfold xbrl_zip_url in H.
    apply (inj (String.append base_url)) in H.
    apply (inj (String.append ck)) in H.
    apply (inj (String.append "/")) in H.
    apply (split_at_first "/" (remove_hyphens a) _ (remove_hyphens b)) in H
      as [_ H]; [|by apply has_char_remove_hyphens..].
    by apply append_cancel_r in H.
  - apply path_join_inj in H. by apply append_cancel_r in H.
Qed.

Lemma distinct_filings_distinct_packages_witness :
  has_char "/" "0000320193-23-000106" = false
  ∧ has_char "/" "0000320193-23-000077" = false
  ∧ "0000320193-23-000106" ≠ "0000320193-23-000077"
  ∧ xbrl_zip_url "0000320193" "0000320193-23-000106"
    ≠ xbrl_zip_url "0000320193" "0000320193-23-000077".
Proof.
  assert (H1 : has_char "/" "0000320193-23-000106" = false) by reflexivity.
  assert (H2 : has_char "/" "0000320193-23-000077" = false) by reflexivity.
  assert (H3 : "0000320193-23-000106" ≠ "0000320193-23-000077") by discriminate.
  do 3 (split; [assumption|]).
  exact (proj1 (distinct_filings_distinct_packages "0000320193" "D:/Filings/XYZ/10-k"
                  _ _ H1 H2 H3)).
Defined.

(** ** From one iteration to a whole run *)

Lemma after_mono {A} (r : result A) (Q Q' : state → Prop) :
  after r Q → (∀ s, Q s → Q' s) → after r Q'.
Proof. destruct r; simpl; auto. Qed.

Lemma ends_in_after {A} (r : result A) Q : ends_in r Q → after r Q.
Proof. by destruct r. Qed.

Lemma steps_keeps R {A} (m : M A) : steps R m → keeps R m.
Proof. intros H s. apply ends_in_after, H. Qed.

Lemma keeps_bind (R : relation state) `{!PreOrder R} {A B}
    (m : M A) (k : A → M B) :
  keeps R m → (∀ a, keeps R (k a)) → keeps R (bind m k).
Proof.
  intros Hm Hk s. unfold bind. specialize (Hm s).
  destruct (m s) as [a s1|e s1|]; simpl in *; [|done..].
  eapply after_mono; [apply Hk|]. intros s2 H2. by etrans.
Qed.

Section Run.

Context (R : relation state) `{!PreOrder R}.

(** [R] looks at disk and ledger only, and allows commit and rollback. *)
Hypothesis R_frame : ∀ s s',
  fs s' = fs s → filings s' = filings s → durable s' = durable s → R s s'.
Hypothesis R_commit : ∀ s, R s (with_durable (filings s) s).
Hypothesis R_rollback : ∀ s, R s (with_filings (λ _, durable s) s).

Context (w : World) (max_retries : nat) (known : Entity → Prop).

(** [R] allows the iteration for a recognized filing of a known entity. *)
Hypothesis R_filing : ∀ row nf filing,
  known row →
  lower (form filing) ∈ recognized_forms →
  keeps R (process_filing w max_retries (cik_str row) (company_ticker row)
             ("D:/Filings" </> company_ticker row) nf filing).

Lemma keeps_for_each_filing row rows nf :
  known row →
  Forall (λ f, lower (form f) ∈ recognized_forms) rows →
  keeps R (for_each_filing w max_retries (cik_str row) (company_ticker row)
             ("D:/Filings" </> company_ticker row) rows nf).
Proof.
  intros Hrow Hrec. revert nf. induction Hrec as [|f rows Hf _ IH]; intros nf; simpl.
  - intros s. simpl. reflexivity.
  - apply keeps_bind; [apply _ | by apply R_filing | intros nf'; apply IH].
Qed.

Lemma get_filings_list_keeps ck s :
  match get_filings_list w ck s with
  | Ok filings_list s' =>
      R s s' ∧ Forall (λ f, lower (form f) ∈ recognized_forms) filings_list
  | Raise _ s' => R s s'
  | Hang => True
  end.
Proof.
  destruct (semaphore (sec_rate_limiter s)) as [|n] eqn:Esem.
  { unfold get_filings_list, with_sec_rate_limiter, bind, RateLimiter_enter.
    by rewrite Esem. }
  destruct (get_filings_list_spec w ck s) as (s' & -> & A & F & D & _); [lia|].
  destruct (catalog w _ _) as [e|all_forms]; [by apply R_frame|].
  split; [by apply R_frame|].
  apply Forall_forall. intros f Hf. by apply list_elem_of_filter in Hf as [? _].
Qed.

Lemma keeps_try_block row : known row → keeps R (try_block w max_retries row).
Proof.
  intros Hrow s. unfold try_block. unfold bind at 1.
  pose proof (get_filings_list_keeps (cik_str row) s) as Hget.
  destruct (get_filings_list w (cik_str row) s) as [fl s1|e s1|]; [|done..].
  destruct Hget as [H1 Hrec].
  eapply after_mono; [|intros s2 H2; etrans; [exact H1 | exact H2]].
  apply keeps_bind; [apply _ | by apply keeps_for_each_filing | intros _].
  intros s2. unfold after.
  change (R s2 (with_durable (filings (with_event EvCommit s2))
                  (with_event EvCommit s2))).
  etrans; [|apply (R_commit (with_event EvCommit s2))]. by apply R_frame.
Qed.

Lemma keeps_process_entity row :
  known row → keeps R (process_entity w max_retries row).
Proof.
  intros Hrow s. unfold process_entity, bind, print, emit, modify, try_except.
  set (s0 := with_event _ s).
  assert (H0 : R s s0) by (by apply R_frame).
  pose proof (keeps_try_block row Hrow s0) as H.
  destruct (try_block w max_retries row s0) as [[] s1|e s1|]; simpl in *; [| |done].
  - by etrans.
  - etrans; [exact H0|]. etrans; [exact H|]. by apply R_frame.
Qed.

Lemma keeps_for_each_entity todo :
  Forall known todo → keeps R (for_each_entity w max_retries todo).
Proof.
  induction 1 as [|row todo Hrow _ IH]; simpl.
  - intros s. simpl. reflexivity.
  - apply keeps_bind; [apply _ | by apply keeps_process_entity | intros _; apply IH].
Qed.

(** What [main] does after it has opened the connection. *)
Lemma keeps_main company_data s :
  Forall known company_data →
  after (main w max_retries company_data s)
    (R (with_filings (λ _, durable s) s)).
Proof.
  intros Hknown. rewrite main_unfold. set (s0 := with_filings _ s).
  unfold bind at 1.
  destruct (resume_cases company_data (order_by_id_desc_limit_1 (durable s)) s0)
    as [(todo & -> & Hsub) | ->]; [|simpl; reflexivity].
  apply keeps_bind; [apply _ | | intros _].
  - apply keeps_for_each_entity. apply Forall_forall. intros row Hin.
    rewrite Forall_forall in Hknown. by apply Hknown, Hsub.
  - intros s1. simpl. apply R_rollback.
Qed.

End Run.

(** ** The shape of the rows *)

Lemma quiet_filing_row w tk ck path filing s s' :
  quiet s s' → filing_row w tk ck path filing s s'.
Proof. intros [F D _ _]. split; auto. Qed.

Tactic Notation "row_step" constr(lem) "as" simple_intropattern(a) ident(s') :=
  match goal with
  | H : quiet ?s0 ?s1 |- ends_in (bind _ _ ?s1) _ =>
      eapply (ends_in_bind _ _ s1 (quiet s0));
      [ eapply ends_in_mono; [apply lem | intros ? ?; by etrans]
      | intros ? ?; by apply quiet_filing_row
      | clear H; intros a s' _ H ]
  end.

Lemma process_filing_row w max_retries ck tk path nf filing s :
  ends_in (process_filing w max_retries ck tk path nf filing s)
    (filing_row w tk ck path filing s).
Proof.
  unfold process_filing.
  unfold bind at 1, select_count.
  destruct (0 <? _).
  { apply quiet_filing_row. etrans; [|by apply quiet_event]. reflexivity. }
  assert (H : quiet s s) by reflexivity. revert H. generalize s at 2 3 as s1.
  intros s1 H.
  row_step steps_download_with_retries as [retries response] s2. simpl.
  destruct (retries =? max_retries).
  { apply quiet_filing_row. etrans; [exact H|]. by apply quiet_event. }
  destruct response as [content|]; [|by apply quiet_filing_row].
  row_step steps_write_file as _ s3.
  row_step steps_print as _ s4; [done|].
  row_step steps_ZipFile as members s5.
  destruct (to_datetime_strftime w (reportDate filing)) as [rd|] eqn:Erd;
    [|by apply quiet_filing_row].
  row_step steps_extract_members as nf' s6.
  row_step steps_os_remove as _ s7.
  destruct nf' as [name|]; [|by apply quiet_filing_row].
  destruct H as [F D _ _]. simpl. split; simpl; [|done].
  right. exists rd, name. split; [done|]. by rewrite F.
Qed.

Lemma extended_by_run_insert company_data base rows row ft rd acc name :
  row ∈ company_data →
  ft ∈ recognized_forms →
  extended_by_run company_data base rows →
  extended_by_run company_data base
    (insert_row (company_ticker row) (cik_str row) ft rd acc
       ("D:/Filings" </> company_ticker row </> ft </> name) rows).
Proof.
  intros Hrow Hft (added & -> & Hall). unfold insert_row.
  eexists (added ++ [_]). split; [by rewrite app_assoc|].
  apply Forall_app. split; [done|]. constructor; [|done].
  split; [|split]; simpl; [by exists row | done | by exists name].
Qed.

(** X8. The rows a run over [company_data] adds to the committed table
    come after the rows that were there, and each of them has the ticker
    and CIK of one of the entities, one of the four recognized form types
    in lower case, and a file path in the directory
    [D:/Filings/<ticker>/<form type>] of its own ticker and form type. *)
Theorem committed_rows_are_rows_of_the_run w max_retries company_data s s' :
  state_of (run_script w max_retries company_data s) = Some s' →
  extended_by_run company_data (durable s) (durable s').
Proof.
  rewrite run_script_unfold. set (s0 := with_limiter _ s).
  set (I := λ x : state,
         extended_by_run company_data (durable s) (filings x)
         ∧ extended_by_run company_data (durable s) (durable x)).
  assert (HI : ∀ rows, rows = durable s → extended_by_run company_data (durable s) rows).
  { intros rows ->. exists []. by rewrite app_nil_r. }
  assert (Hpre : PreOrder (λ x y : state, I x → I y)).
  { split; [by intros x | intros x y z Hxy Hyz Hx; auto]. }
  pose proof (keeps_main (λ x y, I x → I y)) as Hmain.
  intros Hrun.
  assert (Hend : I s'); [|by destruct Hend].
  enough (Hafter : after (main w max_retries company_data s0)
                     (λ y, I (with_filings (λ _, durable s0) s0) → I y)).
  { destruct (main w max_retries company_data s0) as [a s1|e s1|];
      simpl in *; [| |done]; injection Hrun as <-; apply Hafter; split; by apply HI. }
  apply Hmain with (known := λ row, row ∈ company_data).
  - intros x y _ F D [Hf Hd]. unfold I. by rewrite F, D.
  - intros x [Hf _]. by split.
  - intros x [_ Hd]. by split.
  - intros row nf filing Hrow Hrec x.
    eapply after_mono; [apply ends_in_after, process_filing_row|].
    intros y [F D] [Hf Hd]. split; [|by rewrite D].
    destruct F as [->|(rd & name & _ & ->)]; [done|].
    by apply extended_by_run_insert.
  - by apply Forall_forall.
Qed.

Lemma committed_rows_are_rows_of_the_run_witness :
  ∃ s', state_of (run_script world_ok 1 [xyz] fresh) = Some s'
        ∧ extended_by_run [xyz] (durable fresh) (durable s').
Proof.
  assert (H : ∃ s', state_of (run_script world_ok 1 [xyz] fresh) = Some s').
  { vm_compute. eexists. reflexivity. }
  destruct H as [s' H]. exists s'. split; [exact H|].
  exact (committed_rows_are_rows_of_the_run world_ok 1 [xyz] fresh s' H).
Defined.

(** ** The clock *)

#[global] Instance later_preorder : PreOrder later.
Proof.
  split.
  - intros s. split; [apply Qle_refl | done].
  - intros s1 s2 s3 [C1 L1] [C2 L2]. split; [by eapply Qle_trans | congruence].
Qed.

Lemma later_event e s : later s (with_event e s).
Proof. split; [apply Qle_refl | done]. Qed.

Lemma later_fs f s : later s (with_fs f s).
Proof. split; [apply Qle_refl | done]. Qed.

Lemma later_print m : steps later (print m).
Proof. intros s. apply later_event. Qed.

Lemma later_time_sleep d : (0 <= d)%Q → steps later (time_sleep d).
Proof. intros Hd s. split; simpl; [lra | done]. Qed.

Lemma later_write_file path f : steps later (write_file path f).
Proof. intros s. apply later_fs. Qed.

Lemma later_os_remove path : steps later (os_remove path).
Proof.
  intros s. unfold os_remove. destruct (fs s !! path); simpl;
    [apply later_fs | reflexivity].
Qed.

Lemma later_os_rename src dst : steps later (os_rename src dst).
Proof.
  intros s. unfold os_rename. destruct (fs s !! src); simpl; [|reflexivity].
  split; [apply Qle_refl | done].
Qed.

Lemma later_ZipFile path : steps later (ZipFile path).
Proof.
  apply steps_bind; [apply _| |].
  - intros s. apply later_event.
  - intros _ s. destruct (fs s !! path) as [[[|members]|]|]; simpl; reflexivity.
Qed.

Lemma later_extract_and_rename members form_dir name f :
  steps later (extract_and_rename members form_dir name f).
Proof.
  apply steps_bind; [apply _ | | intros _].
  { unfold zip_extract. destruct (getinfo members f) as [data|];
      [|apply steps_raise, _].
    apply steps_bind; [apply _| |intros _; apply later_write_file].
    intros s. apply later_event. }
  apply steps_bind; [apply _ | | intros ex].
  { intros s. simpl. reflexivity. }
  apply steps_bind; [apply _ | | intros _; apply later_os_rename].
  destruct ex; [apply later_os_remove | apply steps_ret, _].
Qed.

Lemma later_extract_members members form_dir name files nf :
  steps later (extract_members members form_dir name files nf).
Proof.
  revert nf. induction files as [|f files IH]; intros nf; simpl.
  - apply steps_ret, _.
  - destruct (endswith (lower f) ".xml"); [|apply IH].
    apply steps_bind; [apply _ | apply later_extract_and_rename | intros _].
    apply IH.
Qed.

Section Clock.

Context (w : World) (max_retries : nat).

(** No answer arrives before its request. *)
Hypothesis latency_nonneg : ∀ n, (0 <= latency w n)%Q.

Lemma later_requests_get url : steps later (requests_get w url).
Proof.
  intros s. split; simpl; [|done]. pose proof (latency_nonneg (requests s)). lra.
Qed.

Lemma later_download_with_retries url FORM acc remaining retries response :
  steps later (download_with_retries w url FORM acc remaining retries response).
Proof.
  revert retries response.
  induction remaining as [|remaining IH]; intros retries response; simpl.
  - apply steps_ret, _.
  - apply steps_bind; [apply _ | apply later_requests_get | intros r].
    destruct r as [status_code content|e].
    + destruct (status_code =? 200)%Z; [apply steps_ret, _|].
      apply steps_bind; [apply _ | by apply later_print | intros _].
      apply steps_bind; [apply _ | by apply later_time_sleep | intros _]. apply IH.
    + destruct e; try (apply steps_raise, _).
      apply steps_bind; [apply _ | by apply later_print | intros _].
      apply steps_bind; [apply _ | by apply later_time_sleep | intros _]. apply IH.
Qed.

Lemma later_process_filing ck tk path nf filing :
  steps later (process_filing w max_retries ck tk path nf filing).
Proof.
  unfold process_filing.
  apply steps_bind; [apply _ | | intros count].
  { intros s. simpl. reflexivity. }
  destruct (0 <? count).
  { apply steps_bind; [apply _ | apply later_print | intros _; apply steps_ret, _]. }
  apply steps_bind;
    [apply _ | apply later_download_with_retries | intros [retries response]].
  simpl. destruct (retries =? max_retries).
  { apply steps_bind; [apply _ | apply later_print | intros _; apply steps_ret, _]. }
  destruct response as [content|]; [|apply steps_raise, _].
  apply steps_bind; [apply _ | apply later_write_file | intros _].
  apply steps_bind; [apply _ | apply later_print | intros _].
  apply steps_bind; [apply _ | apply later_ZipFile | intros members].
  destruct (to_datetime_strftime w (reportDate filing)) as [rd|];
    [|apply steps_raise, _].
  apply steps_bind; [apply _ | apply later_extract_members | intros nf'].
  apply steps_bind; [apply _ | apply later_os_remove | intros _].
  destruct nf' as [name|]; [|apply steps_raise, _].
  apply steps_bind; [apply _ | | intros _; apply steps_ret, _].
  intros s. simpl. split; [apply Qle_refl | done].
Qed.

Lemma later_for_each_filing ck tk path rows nf :
  steps later (for_each_filing w max_retries ck tk path rows nf).
Proof.
  revert nf. induction rows as [|filing rows IH]; intros nf; simpl.
  - apply steps_ret, _.
  - apply steps_bind; [apply _ | apply later_process_filing | intros nf'; apply IH].
Qed.

(** An entity costs a period at least: the catalog call holds the one
    thread of the script until the period is over. *)
Lemma process_entity_clock row s :
  let l := sec_rate_limiter s in
  0 < semaphore l →
  ∃ s', process_entity w max_retries row s = Ok tt s'
        ∧ (clock s + period l <= clock s')%Q
        ∧ semaphore (sec_rate_limiter s') = semaphore l
        ∧ period (sec_rate_limiter s') = period l.
Proof.
  intros l Hsem. subst l.
  unfold process_entity, bind, print, emit, modify, try_except.
  set (s0 := with_event _ s).
  destruct (get_filings_list_spec w (cik_str row) s0 Hsem)
    as (s1 & Hget & _ & _ & _ & _ & S1 & _ & P1 & _ & C1).
  change (clock s0) with (clock s) in C1.
  change (sec_rate_limiter s0) with (sec_rate_limiter s) in *.
  unfold try_block. unfold bind at 1. rewrite Hget.
  destruct (catalog w _ _) as [e|all_forms].
  { eexists. split; [reflexivity|]. simpl. auto. }
  set (fl := filter _ all_forms).
  pose proof (later_for_each_filing (cik_str row) (company_ticker row)
                ("D:/Filings" </> company_ticker row) fl None s1) as Hl.
  unfold bind, download_and_unzip_filings.
  destruct (for_each_filing _ _ _ _ _ _ _ _) as [[] s2|e s2|];
    simpl in Hl; [| |done]; destruct Hl as [C2 L2];
    (eexists; split; [reflexivity|]); simpl; rewrite L2;
    (split; [lra | auto]).
Qed.

End Clock.

(** X9. The limiter admits ten calls in a period, but the catalog call
    keeps the one thread of the script inside its [with] block until the
    period is over: when no answer arrives before its request, a loop
    over [n] entities ends normally and takes [n] periods at least. *)
Theorem each_entity_takes_a_period w max_retries todo s :
  (∀ n, (0 <= latency w n)%Q) →
  0 < semaphore (sec_rate_limiter s) →
  ∃ s', for_each_entity w max_retries todo s = Ok tt s'
        ∧ (clock s
           + inject_Z (Z.of_nat (length todo)) * period (sec_rate_limiter s)
           <= clock s')%Q.
Proof.
  intros Hlat. revert s. induction todo as [|row todo IH]; intros s Hsem.
  - exists s. split; [done|].
    change (inject_Z (Z.of_nat (length (@nil Entity)))) with 0%Q. lra.
  - destruct (process_entity_clock w max_retries Hlat row s Hsem)
      as (s1 & Hrow & C1 & S1 & P1).
    destruct (IH s1) as (s2 & Hrest & C2); [lia|].
    exists s2. cbn [for_each_entity]. unfold bind. rewrite Hrow.
    split; [done|]. rewrite P1 in C2.
    cbn [length]. rewrite Nat2Z.inj_succ, <- Z.add_1_r, inject_Z_plus.
    change (inject_Z 1) with 1%Q. lra.
Qed.

Lemma each_entity_takes_a_period_witness :
  (∀ n, (0 <= latency world_ok n)%Q)
  ∧ 0 < semaphore (sec_rate_limiter fresh)
  ∧ ∃ s', for_each_entity world_ok 1 [xyz; abc] fresh = Ok tt s'
          ∧ (clock fresh
             + inject_Z (Z.of_nat (length [xyz; abc]))
               * period (sec_rate_limiter fresh)
             <= clock s')%Q.
Proof.
  assert (H1 : ∀ n, (0 <= latency world_ok n)%Q) by (intros n; by vm_compute).
  assert (H2 : 0 < semaphore (sec_rate_limiter fresh)) by (vm_compute; lia).
  split; [exact H1|]. split; [exact H2|].
  exact (each_entity_takes_a_period world_ok 1 [xyz; abc] fresh H1 H2).
Defined.
